(** * SurveyPointsTable: flattening, unit conversion and bulk actions

    A shallow embedding of [src/components/PointsTable.tsx].  JavaScript
    numbers are IEEE 754 binary64 values ([spec_float] at precision 53),
    strings are [string], arrays are [list], the row-selection object is an
    association list in [Object.keys] order, the column-visibility object is
    a finite map, and the event handlers run in a small monad that records
    the calls made to the external collaborators and may throw. *)

From Stdlib Require Import ZArith List String Ascii Bool Lia.
From Stdlib Require Import QArith Qpower Lqa.
From Stdlib Require Import SpecFloat.
From Stdlib Require Import DecimalString DecimalNat Sorted.
From stdpp Require Import base gmap strings.
Import ListNotations.

Local Open Scope Z_scope.

(** ** JavaScript primitives *)

Module JS.

(** Numbers: binary64. *)
Definition prec : Z := 53.
Definition emax : Z := 1024.
Definition number : Type := spec_float.

(** A numeric literal with an integer value. *)
Definition of_Z (z : Z) : number := binary_normalize prec emax z 0 false.

(** [a / b] and [a * b] on numbers. *)
Definition div (a b : number) : number := SFdiv prec emax a b.
Definition mul (a b : number) : number := SFmul prec emax a b.

(** [a <= b] on numbers. *)
Definition leb (a b : number) : bool := SFleb a b.

Definition is_finite (a : number) : bool :=
  match a with
  | S754_zero _ | S754_finite _ _ _ => true
  | S754_infinity _ | S754_nan => false
  end.

(** [Math.round]: the integral number closest to [x], ties towards
    +infinity; zeros, infinities, NaN and numbers that are already integral
    are returned unchanged, and a result that rounds to zero keeps the sign
    of [x]. *)
Definition Math_round (x : number) : number :=
  match x with
  | S754_finite s m e =>
      if 0 <=? e then x
      else
        let k := - e in
        let sm := if s then Zneg m else Zpos m in
        let n := (sm + 2 ^ (k - 1)) / 2 ^ k in
        if n =? 0 then S754_zero s else binary_normalize prec emax n 0 false
  | _ => x
  end.

(** Strings: sequences of 8-bit code units. *)
Definition is_white_space (c : ascii) : bool :=
  let n := nat_of_ascii c in
  (n =? 9)%nat || (n =? 10)%nat || (n =? 11)%nat || (n =? 12)%nat
  || (n =? 13)%nat || (n =? 32)%nat || (n =? 160)%nat.

Fixpoint trim_start (s : string) : string :=
  match s with
  | String c s' => if is_white_space c then trim_start s' else s
  | EmptyString => s
  end.

Definition digit_value (c : ascii) : option Z :=
  let n := Z.of_nat (nat_of_ascii c) in
  if (48 <=? n) && (n <=? 57) then Some (n - 48)
  else if (97 <=? n) && (n <=? 122) then Some (n - 87)
  else if (65 <=? n) && (n <=? 90) then Some (n - 55)
  else None.

(** The longest prefix of digits of the radix, as an integer; [None] when
    the prefix is empty. *)
Fixpoint parse_digits (radix : Z) (s : string) (acc : option Z) : option Z :=
  match s with
  | String c s' =>
      match digit_value c with
      | Some d =>
          if d <? radix
          then parse_digits radix s'
                 (Some (match acc with Some a => a * radix + d | None => d end))
          else acc
      | None => acc
      end
  | EmptyString => acc
  end.

(** [parseInt(s)] with no radix argument.  [None] is NaN; [Some z] is the
    integer parsed (the number it denotes is used only as an array index,
    where the value below 2^53 is exact and anything above is out of range
    of every array). *)
Definition parseInt (s : string) : option Z :=
  let s := trim_start s in
  let '(sign, s) :=
    match s with
    | String "-"%char s' => (-1, s')
    | String "+"%char s' => (1, s')
    | _ => (1, s)
    end in
  let '(radix, s) :=
    match s with
    | String "0"%char (String "x"%char s') => (16, s')
    | String "0"%char (String "X"%char s') => (16, s')
    | _ => (10, s)
    end in
  option_map (Z.mul sign) (parse_digits radix s None).

(** [arr[i]] for a number [i]: [None] is [undefined]. *)
Definition array_get {A : Type} (arr : list A) (i : option Z) : option A :=
  match i with
  | Some z => if z <? 0 then None else nth_error arr (Z.to_nat z)
  | None => None
  end.

(** Truthiness of a [string | undefined] value. *)
Definition truthy (s : option string) : bool :=
  match s with
  | Some EmptyString | None => false
  | Some (String _ _) => true
  end.

(** [Object.keys(o)] of an object given by its own properties in
    enumeration order. *)
Definition Object_keys {V : Type} (o : list (string * V)) : list string :=
  map fst o.

End JS.

(** ** Data model *)

(** Modelled from the spec: the declarations of [WifiNetwork],
    [IperfResults], [SurveyPoint] and [ApMapping] live in [@/lib/types],
    which is not part of the sources at hand; the fields are the ones the
    component reads and the ones [FlattenedSurveyPoint] lists. *)
Module WifiData.
Record t : Type := mk {
  ssid : string;
  bssid : string;
  rssi : JS.number;
  channel : JS.number;
  security : string;
  txRate : JS.number;
  phyMode : string;
  channelWidth : JS.number;
  frequency : JS.number
}.
End WifiData.

Module IperfResults.
Record test : Type := mkTest { bitsPerSecond : JS.number }.
Record t : Type := mk {
  tcpDownload : test;
  tcpUpload : test;
  udpDownload : test;
  udpUpload : test
}.
End IperfResults.

Module SurveyPoint.
Record t : Type := mk {
  id : string;
  x : JS.number;
  y : JS.number;
  wifiData : WifiData.t;
  iperfResults : IperfResults.t;
  timestamp : string;
  isDisabled : bool
}.
End SurveyPoint.

Module ApMapping.
Record t : Type := mk {
  macAddress : string;
  apName : string
}.
End ApMapping.

(** The object built by [flattenedData] for one point: the spread of the
    point, the spread of its [wifiData], and the overriding fields. *)
Module Flat.
Record t : Type := mk {
  id : string;
  x : JS.number;
  y : JS.number;
  wifiData : WifiData.t;
  iperfResults : IperfResults.t;
  isDisabled : bool;
  ssid : string;
  rssi : JS.number;
  channel : JS.number;
  security : string;
  txRate : JS.number;
  phyMode : string;
  channelWidth : JS.number;
  bssid : string;
  tcpDownloadMbps : JS.number;
  tcpUploadMbps : JS.number;
  udpDownloadMbps : JS.number;
  udpUploadMbps : JS.number;
  signalQuality : JS.number;
  frequency : string;
  timestamp : string
}.
End Flat.

(** ** Unit conversion *)

Definition convertToMbps (bitsPerSecond : JS.number) : JS.number :=
  JS.div
    (JS.Math_round
       (JS.mul (JS.div bitsPerSecond (JS.of_Z 1000000)) (JS.of_Z 100)))
    (JS.of_Z 100).

(** The conversion as the specification words it:
    [round(v / 1_000_000 * 100) / 100]. *)
Definition bitsPerSecondToMbps_spec (v : JS.number) : JS.number :=
  let scaled := JS.mul (JS.div v (JS.of_Z 1000000)) (JS.of_Z 100) in
  JS.div (JS.Math_round scaled) (JS.of_Z 100).

(** ** Row flattener *)

Section Flatten.

(** Collaborators of the flattener that are outside the component:
    [rssiToPercentage] from [@/lib/utils], the number-to-string conversion
    of template literals, and [new Date(t).toLocaleString()]. *)
Variable rssiToPercentage : JS.number -> JS.number.
Variable Number_toString : JS.number -> string.
Variable toLocaleString : string -> string.

(** [apMapping.find((ap) => ap.macAddress === bssid)?.apName] *)
Definition mappedName (apMapping : list ApMapping.t) (bssid : string)
  : option string :=
  option_map ApMapping.apName
    (find (fun ap => String.eqb (ApMapping.macAddress ap) bssid) apMapping).

(** The [bssid] label of a row. *)
Definition resolve_bssid (apMapping : list ApMapping.t) (raw : string)
  : string :=
  if (0 <? length apMapping)%nat then
    match mappedName apMapping raw with
    | Some name =>
        if JS.truthy (Some name)
        then String.append name
               (String.append " (" (String.append raw ")"))
        else raw
    | None => raw
    end
  else raw.

(** The body of the [data.map] callback. *)
Definition flatten_point (apMapping : list ApMapping.t)
  (point : SurveyPoint.t) : Flat.t :=
  let w := SurveyPoint.wifiData point in
  let r := SurveyPoint.iperfResults point in
  {| Flat.id := SurveyPoint.id point;
     Flat.x := SurveyPoint.x point;
     Flat.y := SurveyPoint.y point;
     Flat.wifiData := w;
     Flat.iperfResults := r;
     Flat.isDisabled := SurveyPoint.isDisabled point;
     Flat.ssid := WifiData.ssid w;
     Flat.rssi := WifiData.rssi w;
     Flat.channel := WifiData.channel w;
     Flat.security := WifiData.security w;
     Flat.txRate := WifiData.txRate w;
     Flat.phyMode := WifiData.phyMode w;
     Flat.channelWidth := WifiData.channelWidth w;
     Flat.bssid := resolve_bssid apMapping (WifiData.bssid w);
     Flat.tcpDownloadMbps :=
       convertToMbps (IperfResults.bitsPerSecond (IperfResults.tcpDownload r));
     Flat.tcpUploadMbps :=
       convertToMbps (IperfResults.bitsPerSecond (IperfResults.tcpUpload r));
     Flat.udpDownloadMbps :=
       convertToMbps (IperfResults.bitsPerSecond (IperfResults.udpDownload r));
     Flat.udpUploadMbps :=
       convertToMbps (IperfResults.bitsPerSecond (IperfResults.udpUpload r));
     Flat.signalQuality := rssiToPercentage (WifiData.rssi w);
     Flat.frequency :=
       String.append (Number_toString (WifiData.frequency w)) " Mhz";
     Flat.timestamp := toLocaleString (SurveyPoint.timestamp point) |}.

Definition flattenedData (data : list SurveyPoint.t)
  (apMapping : list ApMapping.t) : list Flat.t :=
  map (flatten_point apMapping) data.

End Flatten.

(** ** Effects of the event handlers *)

(** The patch [{ isDisabled: b }] handed to [updateDatapoint]. *)
Record Patch : Type := mkPatch { patch_isDisabled : bool }.

(** A call to one of the two collaborators received as props. *)
Inductive Call : Type :=
| OnDelete (ids : list string)
| UpdateDatapoint (id : string) (data : Patch).

Inductive JSError : Type := TypeError.

Inductive Completion (A : Type) : Type :=
| Normal (a : A)
| Throw (e : JSError).
Arguments Normal {A} a.
Arguments Throw {A} e.

(** A handler's run: the collaborator calls it made, in order, and how it
    ended. *)
Definition Eff (A : Type) : Type := (list Call * Completion A)%type.

Definition ret {A : Type} (a : A) : Eff A := ([], Normal a).

Definition throw {A : Type} (e : JSError) : Eff A := ([], Throw e).

Definition call (c : Call) : Eff unit := ([c], Normal tt).

Definition bind {A B : Type} (m : Eff A) (k : A -> Eff B) : Eff B :=
  match m with
  | (t, Normal a) => let '(t', r) := k a in (t ++ t', r)
  | (t, Throw e) => (t, Throw e)
  end.

Notation "'do' x <- m ; k" := (bind m (fun x => k))
  (at level 10, x name, m at level 100, k at level 200).

(** [arr.map(f)] for a callback that may throw. *)
Fixpoint mapM {A B : Type} (f : A -> Eff B) (l : list A) : Eff (list B) :=
  match l with
  | [] => ret []
  | a :: l' => do b <- f a; do bs <- mapM f l'; ret (b :: bs)
  end.

(** [arr.forEach(f)] *)
Fixpoint forEach {A : Type} (f : A -> Eff unit) (l : list A) : Eff unit :=
  match l with
  | [] => ret tt
  | a :: l' => do u <- f a; forEach f l'
  end.

Definition trace {A : Type} (m : Eff A) : list Call := fst m.

Definition completion {A : Type} (m : Eff A) : Completion A := snd m.

(** ** Bulk actions *)

(** The [rowSelection] state: the own properties of the object, in
    [Object.keys] order. *)
Definition RowSelection : Type := list (string * bool).

(** [flattenedData[parseInt(index)].id]: reading [id] of [undefined]
    throws. *)
Definition row_id_at (flattenedData : list Flat.t) (index : string)
  : Eff string :=
  match JS.array_get flattenedData (JS.parseInt index) with
  | Some row => ret (Flat.id row)
  | None => throw TypeError
  end.

Definition handleDelete (rowSelection : RowSelection)
  (flattenedData : list Flat.t) : Eff unit :=
  do selectedIds <-
    mapM (row_id_at flattenedData) (JS.Object_keys rowSelection);
  call (OnDelete selectedIds).

(** [flattenedData.find((point) => point.id === id)?.isDisabled], as the
    condition of [every]. *)
Definition isDisabled_of_id (flattenedData : list Flat.t) (id : string)
  : bool :=
  match find (fun point => String.eqb (Flat.id point) id) flattenedData with
  | Some point => Flat.isDisabled point
  | None => false
  end.

Definition toggleDisableSelected (rowSelection : RowSelection)
  (flattenedData : list Flat.t) : Eff unit :=
  do selectedIds <-
    mapM (row_id_at flattenedData) (JS.Object_keys rowSelection);
  let allHidden := forallb (isDisabled_of_id flattenedData) selectedIds in
  forEach
    (fun id => call (UpdateDatapoint id (mkPatch (negb allHidden))))
    selectedIds.

(** ** Columns and the initial view state *)

(** The fields of a column definition that decide its key and whether it
    can be sorted or hidden. *)
Record ColumnDef : Type := mkColumn {
  col_id : option string;
  accessorKey : option string;
  enableSorting : option bool;
  enableHiding : option bool
}.

Definition accessor (key : string) : ColumnDef :=
  mkColumn None (Some key) None None.

(** The key the table gives a column: its [id], else its [accessorKey]. *)
Definition column_key (c : ColumnDef) : string :=
  match col_id c, accessorKey c with
  | Some i, _ => i
  | None, Some k => k
  | None, None => EmptyString
  end.

Definition columns : list ColumnDef :=
  [ mkColumn (Some "select"%string) None (Some false) (Some false);
    accessor "id";
    mkColumn (Some "disable"%string) (Some "isDisabled"%string) (Some true) None;
    accessor "rssi";
    accessor "signalQuality";
    accessor "bssid";
    accessor "frequency";
    accessor "channel";
    accessor "tcpDownloadMbps";
    accessor "tcpUploadMbps";
    accessor "udpDownloadMbps";
    accessor "udpUploadMbps";
    accessor "timestamp";
    accessor "ssid";
    accessor "security";
    accessor "txRate";
    accessor "phyMode";
    accessor "channelWidth";
    accessor "x";
    accessor "y" ].

(** The initial value of the [columnVisibility] state. *)
Definition columnVisibility : gmap string bool :=
  list_to_map
    [ ("select"%string, true);
      ("id"%string, true);
      ("signalQuality"%string, true);
      ("bssid"%string, true);
      ("frequency"%string, true);
      ("tcpDownloadMbps"%string, true);
      ("tcpUploadMbps"%string, true);
      ("timestamp"%string, true);
      ("disable"%string, true);
      ("rssi"%string, false);
      ("ssid"%string, false);
      ("security"%string, false);
      ("txRate"%string, false);
      ("phyMode"%string, false);
      ("channelWidth"%string, false);
      ("channel"%string, false);
      ("x"%string, false);
      ("y"%string, false) ].

(** The column keys of [columns] that have no entry in a visibility
    state. *)
Definition keys_without_entry (v : gmap string bool) : list string :=
  List.filter (fun k => bool_decide (v !! k = None)) (map column_key columns).

(** ** The bulk-action controls *)

(** The component state the bulk actions depend on: the [rowSelection]
    state and whether the delete confirmation dialog is showing. *)
Record UI : Type := mkUI {
  rowSelection : RowSelection;
  dialogOpen : bool
}.

(** [useState({})], dialog closed. *)
Definition initialUI : UI := mkUI [] false.

Inductive Event : Type :=
| ClickDeleteSelected
| ClickConfirm
| ClickCancel
| ClickToggleDisableSelected
| RowSelectionChange (sel : RowSelection).

(** [disabled={Object.keys(rowSelection).length === 0}] *)
Definition bulk_disabled (s : UI) : bool :=
  (length (JS.Object_keys (rowSelection s)) =? 0)%nat.

(** Modelled from the spec: [AlertDialogModal] and [Button] are components
    of the repository whose sources are not at hand.  After section 6 (the
    confirmation gate is a modal dialog that must obtain explicit
    confirmation before delete is invoked) and sections 4.5 and 7 (a bulk
    action is a disabled affordance when the selection is empty): a click
    on a disabled control does nothing; a click on the enabled delete
    trigger opens the dialog; the dialog's confirm button runs [onConfirm]
    and closes it, its cancel button runs [onCancel] and closes it; while
    the dialog is open it is modal, so the controls behind it receive no
    events.  The wiring is the component's: [onConfirm] is [handleDelete],
    [onCancel] is [() => {}], the toggle button's [onClick] is
    [toggleDisableSelected]. *)
Definition dispatch (flattenedData : list Flat.t) (s : UI) (e : Event)
  : UI * Eff unit :=
  match e with
  | ClickDeleteSelected =>
      if dialogOpen s || bulk_disabled s then (s, ret tt)
      else (mkUI (rowSelection s) true, ret tt)
  | ClickConfirm =>
      if dialogOpen s
      then (mkUI (rowSelection s) false,
            handleDelete (rowSelection s) flattenedData)
      else (s, ret tt)
  | ClickCancel =>
      if dialogOpen s then (mkUI (rowSelection s) false, ret tt)
      else (s, ret tt)
  | ClickToggleDisableSelected =>
      if dialogOpen s || bulk_disabled s then (s, ret tt)
      else (s, toggleDisableSelected (rowSelection s) flattenedData)
  | RowSelectionChange sel =>
      if dialogOpen s then (s, ret tt)
      else (mkUI sel false, ret tt)
  end.

(** A sequence of events over unchanged props: the final state and all
    collaborator calls. *)
Fixpoint run (flattenedData : list Flat.t) (s : UI) (evs : list Event)
  : UI * list Call :=
  match evs with
  | [] => (s, [])
  | e :: evs' =>
      let '(s', m) := dispatch flattenedData s e in
      let '(s'', t) := run flattenedData s' evs' in
      (s'', trace m ++ t)
  end.

Definition reachable (flattenedData : list Flat.t) (s : UI) : Prop :=
  exists evs, fst (run flattenedData initialUI evs) = s.

(** Every key of the selection is a position of a row: it parses to an
    integer index below the number of rows. *)
Definition keys_in_range (flattenedData : list Flat.t) (keys : list string)
  : Prop :=
  forall k, In k keys ->
    exists n, JS.parseInt k = Some n /\ 0 <= n < Z.of_nat (length flattenedData).

(** [rows] are the rows the keys select, key by key. *)
Definition selects (flattenedData : list Flat.t) (keys : list string)
  (rows : list Flat.t) : Prop :=
  Forall2 (fun k r => JS.array_get flattenedData (JS.parseInt k) = Some r)
    keys rows.

(** ** Predicates on the bulk-action state *)

(** The dialog is only ever open over a non-empty selection. *)
Definition dialog_over_selection (s : UI) : Prop :=
  dialogOpen s = true -> bulk_disabled s = false.

(** The events of the two bulk actions: everything but a selection
    change. *)
Definition is_bulk_event (e : Event) : bool :=
  match e with
  | RowSelectionChange _ => false
  | _ => true
  end.

(** ** Exact values of binary64 numbers *)

(** [2^e] for any integer exponent. *)
Definition pow2 (e : Z) : Q := Qpower 2 e.

(** [m * 2^e] *)
Definition F2Q (m e : Z) : Q := (inject_Z m * pow2 e)%Q.

(** The value of a finite number; zero for the others. *)
Definition B2Q (x : JS.number) : Q :=
  match x with
  | S754_finite s m e => F2Q (cond_Zopp s (Zpos m)) e
  | _ => 0%Q
  end.

(** [q] lies in the cell [m*2^e, (m+1)*2^e) at the place [l] says: on its
    lower end, below, at or above its middle. *)
Definition inbetween (m e : Z) (l : location) (q : Q) : Prop :=
  let lo := F2Q m e in
  let hi := F2Q (m + 1) e in
  let mid := ((lo + hi) * (1 # 2))%Q in
  match l with
  | loc_Exact => (q == lo)%Q
  | loc_Inexact Lt => (lo < q /\ q < mid)%Q
  | loc_Inexact Eq => (q == mid)%Q
  | loc_Inexact Gt => (mid < q /\ q < hi)%Q
  end.

(** The binary64 exponent function and the second half of
    [binary_round_aux]: the mantissa after rounding is renormalised and the
    exponent checked for overflow. *)
Definition fexp64 (e : Z) : Z := fexp JS.prec JS.emax e.

Definition finish (m e : Z) : JS.number :=
  let '(mrs, e') := shr_fexp JS.prec JS.emax m e loc_Exact in
  match shr_m mrs with
  | Z0 => S754_zero false
  | Zpos m' =>
      if e' <=? JS.emax - JS.prec then S754_finite false m' e'
      else S754_infinity false
  | Zneg _ => S754_nan
  end.

(** [q] sits in the cell of mantissa [m] at the exponent [e] that binary64
    gives numbers of its magnitude. *)
Definition rounded_at (q : Q) (m e : Z) (l : location) : Prop :=
  inbetween m e l q
  /\ 0 <= m < 2 ^ 53
  /\ -1074 <= e
  /\ (-1074 < e -> 2 ^ 52 <= m).

(** [x] is the binary64 rounding (to nearest, ties to even) of the exact
    non-negative value [q]. *)
Definition rounds_to (q : Q) (x : JS.number) : Prop :=
  exists m e l,
    rounded_at q m e l /\ x = finish (round_nearest_even m l) e.

(** The numbers the conversion works on: zeros, positive finite numbers in
    canonical form, and +infinity. *)
Definition nonneg (x : JS.number) : Prop :=
  match x with
  | S754_zero _ => True
  | S754_finite s m e => s = false /\ bounded JS.prec JS.emax m e = true
  | S754_infinity s => s = false
  | S754_nan => False
  end.

(** [r] is [v] rounded to the nearest integer, ties upwards. *)
Definition half_up (v : Q) (r : Z) : Prop :=
  (inject_Z r <= v + (1 # 2) /\ v + (1 # 2) < inject_Z r + 1)%Q.

(** The invariant of the right shift of a mantissa: the record still says
    where [q] lies, one exponent up at each step. *)
Definition shr_inv (q : Q) (e : Z) (mrs : shr_record) : Prop :=
  0 <= shr_m mrs /\ inbetween (shr_m mrs) e (loc_of_shr_record mrs) q.

(** [f] maps the domain to itself and respects [<=] on it. *)
Definition monotone (f : JS.number -> JS.number) : Prop :=
  forall x x', nonneg x -> nonneg x' -> SFleb x x' = true ->
    nonneg (f x) /\ nonneg (f x') /\ SFleb (f x) (f x') = true.

(** The inputs of the conversion: a number (in canonical form) that is
    finite and for which [0 <= v] holds. *)
Definition finite_nonneg (v : JS.number) : Prop :=
  valid_binary JS.prec JS.emax v = true
  /\ JS.is_finite v = true
  /\ JS.leb (S754_zero false) v = true.

(** [Number.MAX_VALUE] *)
Definition MAX_VALUE : JS.number := S754_finite false (2 ^ 53 - 1) 971.

(** ** Further parts of the component *)

(** The key under which the table keeps the selection of the row at
    position [i].  [useReactTable] is given no [getRowId], so the id of a
    row is its position written as a decimal numeral, [String(i)], the
    string the handlers hand to [parseInt]. *)
Definition index_key (i : nat) : string :=
  NilEmpty.string_of_uint (Nat.to_uint i).

(** Selecting the row at position [i] writes the property [index_key i]
    into the [rowSelection] object.  The key of a row position is an array
    index, and an object enumerates its array-index keys in ascending
    numeric order, each once, whatever the order they were written in:
    [ps] are the positions already in the object, in [Object.keys]
    order. *)
Fixpoint select_position (i : nat) (ps : list nat) : list nat :=
  match ps with
  | [] => [i]
  | j :: ps' =>
      if (i <? j)%nat then i :: ps
      else if (i =? j)%nat then ps
      else j :: select_position i ps'
  end.

(** The positions held by the object after the rows at the positions
    [clicks] were selected one after the other, starting from [{}]. *)
Definition selected_positions (clicks : list nat) : list nat :=
  fold_left (fun ps i => select_position i ps) clicks [].

(** The [rowSelection] object after the rows at the positions [clicks]
    were selected, in [Object.keys] order. *)
Definition selection_of (clicks : list nat) : RowSelection :=
  map (fun i => (index_key i, true)) (selected_positions clicks).

(** The [onCheckedChange] handler of the switch in the [disable] column of
    a row. *)
Definition disable_onCheckedChange (row : Flat.t) (value : bool) : Eff unit :=
  call (UpdateDatapoint (Flat.id row) (mkPatch value)).

(** A row with another [bssid] label. *)
Definition with_bssid (label : string) (r : Flat.t) : Flat.t :=
  {| Flat.id := Flat.id r;
     Flat.x := Flat.x r;
     Flat.y := Flat.y r;
     Flat.wifiData := Flat.wifiData r;
     Flat.iperfResults := Flat.iperfResults r;
     Flat.isDisabled := Flat.isDisabled r;
     Flat.ssid := Flat.ssid r;
     Flat.rssi := Flat.rssi r;
     Flat.channel := Flat.channel r;
     Flat.security := Flat.security r;
     Flat.txRate := Flat.txRate r;
     Flat.phyMode := Flat.phyMode r;
     Flat.channelWidth := Flat.channelWidth r;
     Flat.bssid := label;
     Flat.tcpDownloadMbps := Flat.tcpDownloadMbps r;
     Flat.tcpUploadMbps := Flat.tcpUploadMbps r;
     Flat.udpDownloadMbps := Flat.udpDownloadMbps r;
     Flat.udpUploadMbps := Flat.udpUploadMbps r;
     Flat.signalQuality := Flat.signalQuality r;
     Flat.frequency := Flat.frequency r;
     Flat.timestamp := Flat.timestamp r |}.

(** [a < b] on numbers. *)
Definition JS_ltb (a b : JS.number) : bool := SFltb a b.

(** The four rates of a throughput result are finite non-negative
    numbers. *)
Definition measured (r : IperfResults.t) : Prop :=
  finite_nonneg (IperfResults.bitsPerSecond (IperfResults.tcpDownload r))
  /\ finite_nonneg (IperfResults.bitsPerSecond (IperfResults.tcpUpload r))
  /\ finite_nonneg (IperfResults.bitsPerSecond (IperfResults.udpDownload r))
  /\ finite_nonneg (IperfResults.bitsPerSecond (IperfResults.udpUpload r)).

(** Two rows agree on what the bulk actions read: the identifier and the
    [isDisabled] flag. *)
Definition same_record (r r' : Flat.t) : Prop :=
  Flat.id r = Flat.id r' /\ Flat.isDisabled r = Flat.isDisabled r'.

(** ** Sample data for the concrete checks *)

Module Sample.

(** Stand-ins for the three collaborators of the flattener; the checks look
    at identifiers, labels, flags and throughput only. *)
Definition rssiToPercentage (rssi : JS.number) : JS.number := rssi.
Definition Number_toString (n : JS.number) : string := "5180".
Definition toLocaleString (t : string) : string := t.

Definition wifi (bssid : string) : WifiData.t :=
  WifiData.mk "home" bssid (JS.of_Z (-60)) (JS.of_Z 36) "WPA2"
    (JS.of_Z 866) "802.11ac" (JS.of_Z 80) (JS.of_Z 5180).

Definition iperf : IperfResults.t :=
  IperfResults.mk
    (IperfResults.mkTest (JS.of_Z 94300000))
    (IperfResults.mkTest (JS.of_Z 1005000))
    (IperfResults.mkTest (JS.of_Z 0))
    (IperfResults.mkTest (JS.of_Z 5000)).

Definition point (id bssid : string) (disabled : bool) : SurveyPoint.t :=
  SurveyPoint.mk id (JS.of_Z 10) (JS.of_Z 20) (wifi bssid) iperf
    "2024-07-01T10:00:00.000Z" disabled.

Definition flatten (data : list SurveyPoint.t) (apMapping : list ApMapping.t)
  : list Flat.t :=
  flattenedData rssiToPercentage Number_toString toLocaleString data apMapping.

Definition row (id bssid : string) (disabled : bool) : Flat.t :=
  flatten_point rssiToPercentage Number_toString toLocaleString []
    (point id bssid disabled).

Definition three_rows : list Flat.t :=
  flatten
    [ point "A" "AA:BB" false; point "B" "AA:BB" false;
      point "C" "CC:DD" true ] [].

Definition mixed_rows : list Flat.t :=
  flatten [ point "A" "AA:BB" true; point "B" "AA:BB" false ] [].

Definition disabled_rows : list Flat.t :=
  flatten [ point "A" "AA:BB" true; point "B" "AA:BB" true ] [].

End Sample.

(** * Properties *)

(** ** Array access and identifier resolution *)

Lemma array_get_Some {A : Type} (arr : list A) (i : option Z) (a : A) :
  JS.array_get arr i = Some a <->
  exists n, i = Some n /\ 0 <= n < Z.of_nat (length arr)
            /\ nth_error arr (Z.to_nat n) = Some a.
Proof.
  unfold JS.array_get. split.
  - destruct i as [z|]; [|discriminate].
    destruct (Z.ltb_spec z 0) as [Hneg|Hpos]; [discriminate|].
    intros Hnth. exists z. split; [reflexivity|]. split; [|exact Hnth].
    assert (Hlt : (Z.to_nat z < length arr)%nat)
      by (apply nth_error_Some; congruence).
    lia.
  - intros (n & -> & [Hpos _] & Hnth).
    destruct (Z.ltb_spec n 0); [lia | exact Hnth].
Qed.

Lemma array_get_None {A : Type} (arr : list A) (i : option Z) :
  JS.array_get arr i = None <->
  ~ exists n, i = Some n /\ 0 <= n < Z.of_nat (length arr).
Proof.
  split.
  - intros Hnone (n & -> & Hrange).
    unfold JS.array_get in Hnone.
    destruct (Z.ltb_spec n 0); [lia|].
    apply nth_error_None in Hnone. lia.
  - intros Hno. destruct (JS.array_get arr i) as [a|] eqn:Hget; [|reflexivity].
    apply array_get_Some in Hget. destruct Hget as (n & Hi & Hrange & _).
    exfalso. apply Hno. exists n. auto.
Qed.

Lemma keys_in_range_selects (fd : list Flat.t) (keys : list string) :
  keys_in_range fd keys -> exists rows, selects fd keys rows.
Proof.
  unfold keys_in_range, selects. induction keys as [|k keys IH]; intros Hin.
  - exists []. constructor.
  - destruct IH as [rows Hrows].
    { intros k' Hk'. apply Hin. right. exact Hk'. }
    destruct (Hin k (or_introl eq_refl)) as (n & Hparse & Hrange).
    destruct (JS.array_get fd (JS.parseInt k)) as [r|] eqn:Hget.
    + exists (r :: rows). constructor; assumption.
    + apply array_get_None in Hget. exfalso. apply Hget. eauto.
Qed.

Lemma selects_length (fd : list Flat.t) (keys : list string)
  (rows : list Flat.t) :
  selects fd keys rows -> length rows = length keys.
Proof.
  unfold selects. induction 1; cbn [length]; congruence.
Qed.

Lemma mapM_row_id_at_selects (fd : list Flat.t) (keys : list string)
  (rows : list Flat.t) :
  selects fd keys rows ->
  mapM (row_id_at fd) keys = ([], Normal (map Flat.id rows)).
Proof.
  unfold selects. induction 1 as [|k r keys rows Hget _ IH]; [reflexivity|].
  cbn [mapM map]. unfold row_id_at at 1. rewrite Hget, IH. reflexivity.
Qed.

Lemma mapM_row_id_at_throws (fd : list Flat.t) (keys : list string) :
  (exists k, In k keys /\ JS.array_get fd (JS.parseInt k) = None) ->
  mapM (row_id_at fd) keys = ([], Throw TypeError).
Proof.
  induction keys as [|k keys IH]; intros (k' & Hin & Hnone).
  - contradiction.
  - cbn [mapM]. unfold row_id_at at 1.
    destruct (JS.array_get fd (JS.parseInt k)) as [r|] eqn:Hget.
    + destruct Hin as [->|Hin]; [congruence|].
      rewrite IH by eauto. reflexivity.
    + reflexivity.
Qed.

Lemma forEach_call {A : Type} (f : A -> Call) (l : list A) :
  forEach (fun a => call (f a)) l = (map f l, Normal tt).
Proof.
  induction l as [|a l IH]; [reflexivity|].
  cbn [forEach map]. rewrite IH. reflexivity.
Qed.

(** With unique identifiers, looking a row up by its own identifier finds
    that row. *)
Lemma find_by_id_unique (fd : list Flat.t) (n : nat) (r : Flat.t) :
  List.NoDup (map Flat.id fd) ->
  nth_error fd n = Some r ->
  find (fun point => String.eqb (Flat.id point) (Flat.id r)) fd = Some r.
Proof.
  revert n. induction fd as [|p fd IH]; intros n Hnd Hnth.
  - destruct n; discriminate.
  - cbn [map] in Hnd. apply NoDup_cons_iff in Hnd. destruct Hnd as [Hnotin Hnd].
    cbn [find]. destruct n as [|n]; cbn [nth_error] in Hnth.
    + injection Hnth as ->. rewrite String.eqb_refl. reflexivity.
    + destruct (String.eqb_spec (Flat.id p) (Flat.id r)) as [Heq|Hne].
      * exfalso. apply Hnotin. rewrite Heq. apply in_map.
        eapply nth_error_In. exact Hnth.
      * eapply IH; eassumption.
Qed.

Lemma isDisabled_of_id_selected (fd : list Flat.t) (keys : list string)
  (rows : list Flat.t) :
  List.NoDup (map Flat.id fd) ->
  selects fd keys rows ->
  forallb (isDisabled_of_id fd) (map Flat.id rows)
  = forallb Flat.isDisabled rows.
Proof.
  intros Hnd. unfold selects. induction 1 as [|k r keys rows Hget _ IH].
  - reflexivity.
  - cbn [map forallb]. rewrite IH. f_equal.
    apply array_get_Some in Hget. destruct Hget as (n & _ & _ & Hnth).
    unfold isDisabled_of_id. rewrite (find_by_id_unique _ _ _ Hnd Hnth).
    reflexivity.
Qed.

Lemma forallb_false_of_In {A : Type} (f : A -> bool) (l : list A) (a : A) :
  In a l -> f a = false -> forallb f l = false.
Proof.
  intros Hin Hfa. destruct (forallb f l) eqn:Hall; [|reflexivity].
  rewrite forallb_forall in Hall. rewrite (Hall a Hin) in Hfa. discriminate.
Qed.

Lemma toggleDisableSelected_run (fd : list Flat.t) (sel : RowSelection)
  (rows : list Flat.t) :
  List.NoDup (map Flat.id fd) ->
  selects fd (JS.Object_keys sel) rows ->
  toggleDisableSelected sel fd
  = (map (fun r => UpdateDatapoint (Flat.id r)
                     (mkPatch (negb (forallb Flat.isDisabled rows)))) rows,
     Normal tt).
Proof.
  intros Hnd Hsel. unfold toggleDisableSelected.
  rewrite (mapM_row_id_at_selects _ _ _ Hsel). cbn [bind].
  rewrite forEach_call, (isDisabled_of_id_selected _ _ _ Hnd Hsel).
  rewrite map_map. reflexivity.
Qed.

Lemma handleDelete_run (fd : list Flat.t) (sel : RowSelection)
  (rows : list Flat.t) :
  selects fd (JS.Object_keys sel) rows ->
  handleDelete sel fd = ([OnDelete (map Flat.id rows)], Normal tt).
Proof.
  intros Hsel. unfold handleDelete.
  rewrite (mapM_row_id_at_selects _ _ _ Hsel). reflexivity.
Qed.

(** Distinct selected positions of rows with unique identifiers give
    distinct identifiers. *)
Lemma selected_ids_NoDup (fd : list Flat.t) (keys : list string)
  (rows : list Flat.t) :
  List.NoDup (map Flat.id fd) ->
  List.NoDup (map JS.parseInt keys) ->
  selects fd keys rows ->
  List.NoDup (map Flat.id rows).
Proof.
  intros Hnd Hkeys Hsel. unfold selects in Hsel.
  induction Hsel as [|k r keys rows Hget Hrest IH]; [constructor|].
  cbn [map] in *. apply NoDup_cons_iff in Hkeys. destruct Hkeys as [Hk Hkeys].
  constructor; [|exact (IH Hkeys)].
  intros Hin. apply Hk. clear IH Hk Hkeys.
  apply array_get_Some in Hget. destruct Hget as (n & Hn & Hrange & Hnth).
  induction Hrest as [|k' r' keys rows Hget' _ IH']; [contradiction|].
  cbn [map] in *. destruct Hin as [Heq|Hin]; [left|right; exact (IH' Hin)].
  apply array_get_Some in Hget'. destruct Hget' as (n' & Hn' & Hrange' & Hnth').
  rewrite Hn, Hn'. f_equal.
  assert (Hnat : Z.to_nat n' = Z.to_nat n).
  { apply (proj1 (NoDup_nth_error (map Flat.id fd)) Hnd).
    - rewrite length_map. apply nth_error_Some. congruence.
    - rewrite !nth_error_map, Hnth, Hnth'. cbn. f_equal. exact Heq. }
  lia.
Qed.

Lemma mapM_row_id_at_trace (fd : list Flat.t) (keys : list string) :
  trace (mapM (row_id_at fd) keys) = [].
Proof.
  induction keys as [|k keys IH]; [reflexivity|].
  cbn [mapM]. unfold row_id_at at 1.
  destruct (JS.array_get fd (JS.parseInt k)); [|reflexivity].
  cbn [ret bind]. destruct (mapM (row_id_at fd) keys) as [tr [ids|e]];
    cbn in IH |- *; subst tr; reflexivity.
Qed.

Lemma toggleDisableSelected_trace_updates (fd : list Flat.t)
  (sel : RowSelection) (ids : list string) :
  ~ In (OnDelete ids) (trace (toggleDisableSelected sel fd)).
Proof.
  unfold toggleDisableSelected.
  pose proof (mapM_row_id_at_trace fd (JS.Object_keys sel)) as Ht.
  destruct (mapM (row_id_at fd) (JS.Object_keys sel)) as [tr [l|e]];
    cbn in Ht; subst tr; cbn [bind]; [|intros []].
  rewrite forEach_call. cbn. rewrite in_map_iff.
  intros (id & Heq & _). discriminate.
Qed.

(** ** Bulk actions *)

(** C1, as the code has it.  When every key of the selection is the
    position of a row of the table and no two rows of the table have the
    same identifier, toggle-disable computes one target state, the negation
    of "every selected row is disabled", and calls [updateDatapoint] once
    per selected row, in selection order, with the patch
    [{isDisabled: target}]: a selection with an enabled row is disabled as
    a whole, a uniformly disabled selection is re-enabled. *)
Theorem toggleDisableSelected_single_target (fd : list Flat.t)
  (sel : RowSelection) (rows : list Flat.t) :
  List.NoDup (map Flat.id fd) ->
  selects fd (JS.Object_keys sel) rows ->
  let target := negb (forallb Flat.isDisabled rows) in
  toggleDisableSelected sel fd
  = (map (fun r => UpdateDatapoint (Flat.id r) (mkPatch target)) rows,
     Normal tt)
  /\ length (trace (toggleDisableSelected sel fd))
     = length (JS.Object_keys sel)
  /\ (List.NoDup (map JS.parseInt (JS.Object_keys sel)) ->
      List.NoDup (map Flat.id rows))
  /\ ((exists r, In r rows /\ Flat.isDisabled r = false) -> target = true)
  /\ ((forall r, In r rows -> Flat.isDisabled r = true) -> target = false).
Proof.
  intros Hnd Hsel target.
  pose proof (toggleDisableSelected_run fd sel rows Hnd Hsel) as Hrun.
  split; [exact Hrun|]. split; [|split; [|split]].
  - rewrite Hrun. cbn [trace fst]. rewrite length_map.
    exact (selects_length _ _ _ Hsel).
  - intros Hkeys. exact (selected_ids_NoDup _ _ _ Hnd Hkeys Hsel).
  - intros (r & Hin & Hr). unfold target.
    rewrite (forallb_false_of_In _ _ r Hin Hr). reflexivity.
  - intros Hall. unfold target.
    replace (forallb Flat.isDisabled rows) with true; [reflexivity|].
    symmetry. apply forallb_forall. exact Hall.
Qed.

Lemma sample_ids_NoDup : List.NoDup (map Flat.id Sample.three_rows).
Proof.
  cbn. repeat constructor; cbn; intuition discriminate.
Defined.

Lemma toggleDisableSelected_single_target_witness :
  toggleDisableSelected [("0"%string, true); ("1"%string, true)]
    Sample.three_rows
  = ([UpdateDatapoint "A" (mkPatch true); UpdateDatapoint "B" (mkPatch true)],
     Normal tt).
Proof.
  refine (proj1 (toggleDisableSelected_single_target Sample.three_rows
                   [("0"%string, true); ("1"%string, true)]
                   [Sample.row "A" "AA:BB" false; Sample.row "B" "AA:BB" false]
                   sample_ids_NoDup _)).
  repeat constructor.
Defined.

(** The two selections of the specification's examples and a uniformly
    disabled one: an all-enabled and a mixed selection are both disabled as
    a whole, a disabled one is re-enabled. *)
Example toggleDisableSelected_examples :
  trace (toggleDisableSelected [("0"%string, true); ("1"%string, true)]
           Sample.three_rows)
  = [UpdateDatapoint "A" (mkPatch true); UpdateDatapoint "B" (mkPatch true)]
  /\ trace (toggleDisableSelected [("0"%string, true); ("1"%string, true)]
              Sample.mixed_rows)
     = [UpdateDatapoint "A" (mkPatch true); UpdateDatapoint "B" (mkPatch true)]
  /\ trace (toggleDisableSelected [("0"%string, true); ("1"%string, true)]
              Sample.disabled_rows)
     = [UpdateDatapoint "A" (mkPatch false); UpdateDatapoint "B" (mkPatch false)].
Proof.
  repeat split; vm_compute; reflexivity.
Qed.

(** C1, as the claim words it, fails: it holds for no selection with a
    key that is not the position of a row, and it fails for rows that share
    an identifier.  With the key ["2"] left over from a longer table and a
    table of two rows, [flattenedData[2]] is [undefined] and the handler
    throws before any call.  With two rows of identifier ["A"], the first
    disabled and the second enabled, and the second one selected, the flag
    is looked up by identifier and read from the first row, so the enabled
    selected row is set to [isDisabled: false]. *)
Lemma toggleDisableSelected_every_selection_counterexample :
  ~ (forall (fd : list Flat.t) (sel : RowSelection),
       JS.Object_keys sel <> [] ->
       exists rows,
         selects fd (JS.Object_keys sel) rows
         /\ toggleDisableSelected sel fd
            = (map (fun r =>
                      UpdateDatapoint (Flat.id r)
                        (mkPatch (negb (forallb Flat.isDisabled rows))))
                 rows,
               Normal tt))
  /\ toggleDisableSelected [("2"%string, true)] Sample.mixed_rows
     = ([], Throw TypeError)
  /\ selects [Sample.row "A" "AA:BB" true; Sample.row "A" "AA:BB" false]
       ["1"%string] [Sample.row "A" "AA:BB" false]
  /\ toggleDisableSelected [("1"%string, true)]
       [Sample.row "A" "AA:BB" true; Sample.row "A" "AA:BB" false]
     = ([UpdateDatapoint "A" (mkPatch false)], Normal tt).
Proof.
  split; [|split; [|split]].
  - intros Hclaim.
    destruct (Hclaim Sample.mixed_rows [("2"%string, true)]
                ltac:(discriminate)) as (rows & _ & Hrun).
    vm_compute in Hrun. discriminate Hrun.
  - vm_compute. reflexivity.
  - repeat constructor.
  - vm_compute. reflexivity.
Qed.

(** C2, as the code has it.  With a non-empty selection and the dialog
    closed: when every key of the selection is the position of a row of the
    table, opening the dialog and confirming calls [onDelete] exactly once,
    with the identifiers of the selected rows in the current row order;
    opening and cancelling calls nothing, whatever the keys; and [onDelete]
    is only ever called by a confirmation in an open dialog, which only a
    click on the enabled delete trigger opens. *)
Theorem delete_passes_confirmation_gate (fd : list Flat.t) (s : UI) :
  dialogOpen s = false ->
  JS.Object_keys (rowSelection s) <> [] ->
  (forall rows,
     selects fd (JS.Object_keys (rowSelection s)) rows ->
     handleDelete (rowSelection s) fd
     = ([OnDelete (map Flat.id rows)], Normal tt)
     /\ snd (run fd s [ClickDeleteSelected; ClickConfirm])
        = [OnDelete (map Flat.id rows)])
  /\ snd (run fd s [ClickDeleteSelected; ClickCancel]) = []
  /\ (forall s' e ids,
        In (OnDelete ids) (trace (snd (dispatch fd s' e))) ->
        e = ClickConfirm /\ dialogOpen s' = true)
  /\ (forall s' e,
        dialogOpen s' = false ->
        dialogOpen (fst (dispatch fd s' e)) = true ->
        e = ClickDeleteSelected /\ bulk_disabled s' = false).
Proof.
  intros Hclosed Hne.
  assert (Hen : bulk_disabled s = false).
  { unfold bulk_disabled. destruct (JS.Object_keys (rowSelection s));
      [congruence | reflexivity]. }
  split; [|split; [|split]].
  - intros rows Hsel.
    pose proof (handleDelete_run fd (rowSelection s) rows Hsel) as Hrun.
    split; [exact Hrun|].
    cbn [run dispatch]. rewrite Hclosed, Hen. cbn. rewrite Hrun. reflexivity.
  - cbn [run dispatch]. rewrite Hclosed, Hen. reflexivity.
  - intros s' e ids. destruct e; cbn [dispatch];
      destruct (dialogOpen s') eqn:Hopen; cbn [orb];
      try destruct (bulk_disabled s'); cbn; try tauto.
    intros Hin. exfalso.
    exact (toggleDisableSelected_trace_updates _ _ _ Hin).
  - intros s' e Hcl. destruct e; cbn [dispatch]; rewrite Hcl; cbn [orb];
      try destruct (bulk_disabled s') eqn:Hdis; cbn; try congruence; auto.
Qed.

Lemma delete_passes_confirmation_gate_witness :
  snd (run Sample.three_rows
         (mkUI [("0"%string, true); ("2"%string, true)] false)
         [ClickDeleteSelected; ClickConfirm])
  = [OnDelete ["A"%string; "C"%string]]
  /\ snd (run Sample.three_rows
            (mkUI [("0"%string, true); ("2"%string, true)] false)
            [ClickDeleteSelected; ClickCancel])
     = [].
Proof.
  assert (Hsel : selects Sample.three_rows ["0"%string; "2"%string]
                   [Sample.row "A" "AA:BB" false; Sample.row "C" "CC:DD" true])
    by (repeat constructor).
  pose proof (delete_passes_confirmation_gate Sample.three_rows
                (mkUI [("0"%string, true); ("2"%string, true)] false)
                eq_refl ltac:(discriminate)) as H.
  split; [exact (proj2 (proj1 H _ Hsel)) | exact (proj1 (proj2 H))].
Defined.

(** C2, as the claim words it, fails: with the key ["2"] left over from a
    longer table and a table of two rows the delete trigger is enabled, and
    confirming makes [handleDelete] throw on [flattenedData[2].id] before
    [onDelete] is called. *)
Lemma delete_every_selection_counterexample :
  ~ (forall (fd : list Flat.t) (s : UI),
       dialogOpen s = false ->
       JS.Object_keys (rowSelection s) <> [] ->
       exists rows,
         selects fd (JS.Object_keys (rowSelection s)) rows
         /\ snd (run fd s [ClickDeleteSelected; ClickConfirm])
            = [OnDelete (map Flat.id rows)])
  /\ bulk_disabled (mkUI [("2"%string, true)] false) = false
  /\ run Sample.mixed_rows (mkUI [("2"%string, true)] false)
       [ClickDeleteSelected; ClickConfirm]
     = (mkUI [("2"%string, true)] false, [])
  /\ handleDelete [("2"%string, true)] Sample.mixed_rows
     = ([], Throw TypeError).
Proof.
  split; [|split; [|split]].
  - intros Hclaim.
    destruct (Hclaim Sample.mixed_rows (mkUI [("2"%string, true)] false)
                eq_refl ltac:(discriminate)) as (rows & _ & Hrun).
    vm_compute in Hrun. discriminate Hrun.
  - reflexivity.
  - vm_compute. reflexivity.
  - vm_compute. reflexivity.
Qed.

Lemma dispatch_dialog_over_selection (fd : list Flat.t) (s : UI) (e : Event) :
  dialog_over_selection s -> dialog_over_selection (fst (dispatch fd s e)).
Proof.
  unfold dialog_over_selection, bulk_disabled. intros Hinv.
  destruct e; cbn [dispatch]; unfold bulk_disabled;
    destruct (dialogOpen s) eqn:Hopen; cbn [orb];
    try destruct (length (JS.Object_keys (rowSelection s)) =? 0)%nat eqn:Hdis;
    cbn [fst dialogOpen rowSelection]; rewrite ?Hopen, ?Hdis;
    auto; congruence.
Qed.

Lemma run_dialog_over_selection (fd : list Flat.t) (evs : list Event) :
  forall s, dialog_over_selection s ->
            dialog_over_selection (fst (run fd s evs)).
Proof.
  induction evs as [|e evs IH]; intros s Hinv; [exact Hinv|].
  cbn [run]. pose proof (dispatch_dialog_over_selection fd s e Hinv) as Hstep.
  destruct (dispatch fd s e) as [s' m]. specialize (IH s' Hstep).
  destruct (run fd s' evs) as [s'' tr]. exact IH.
Qed.

Lemma reachable_dialog_over_selection (fd : list Flat.t) (s : UI) :
  reachable fd s -> dialog_over_selection s.
Proof.
  intros [evs <-]. apply run_dialog_over_selection.
  unfold dialog_over_selection. cbn. discriminate.
Qed.

(** C8.  In any state the component can be in, an empty selection disables
    both bulk actions: the dialog is closed, every click on the delete
    trigger, the dialog buttons or the toggle button leaves the state as it
    is, calls no collaborator and throws nothing, and so does any sequence
    of such clicks. *)
Theorem empty_selection_disables_bulk_actions (fd : list Flat.t) (s : UI) :
  reachable fd s ->
  JS.Object_keys (rowSelection s) = [] ->
  bulk_disabled s = true
  /\ dialogOpen s = false
  /\ (forall e, is_bulk_event e = true -> dispatch fd s e = (s, ([], Normal tt)))
  /\ (forall evs, forallb is_bulk_event evs = true -> run fd s evs = (s, [])).
Proof.
  intros Hreach Hkeys.
  assert (Hdis : bulk_disabled s = true)
    by (unfold bulk_disabled; rewrite Hkeys; reflexivity).
  assert (Hclosed : dialogOpen s = false).
  { pose proof (reachable_dialog_over_selection fd s Hreach) as Hinv.
    unfold dialog_over_selection in Hinv.
    destruct (dialogOpen s); [|reflexivity].
    rewrite Hinv in Hdis by reflexivity. discriminate. }
  assert (Hstep : forall e, is_bulk_event e = true ->
                            dispatch fd s e = (s, ([], Normal tt))).
  { intros e He. destruct e; cbn [dispatch]; rewrite ?Hclosed, ?Hdis;
      try reflexivity. discriminate. }
  repeat split; try assumption.
  induction evs as [|e evs IH]; [reflexivity|].
  cbn [forallb run]. intros Hall. apply andb_prop in Hall.
  destruct Hall as [He Hall]. rewrite (Hstep e He), (IH Hall). reflexivity.
Qed.

Lemma empty_selection_disables_bulk_actions_witness :
  run Sample.three_rows (mkUI [] false)
    [ClickToggleDisableSelected; ClickDeleteSelected; ClickConfirm]
  = (mkUI [] false, []).
Proof.
  refine (proj2 (proj2 (proj2
    (empty_selection_disables_bulk_actions Sample.three_rows (mkUI [] false)
       _ eq_refl)))
    [ClickToggleDisableSelected; ClickDeleteSelected; ClickConfirm] eq_refl).
  exists [RowSelectionChange [("1"%string, true)]; RowSelectionChange []].
  reflexivity.
Defined.

(** C9.  Both handlers parse every selection key and index the row array
    with it.  When every key parses to an index below the number of rows,
    the identifiers are resolved for all keys and neither handler throws;
    a key that does not parse to such an index reads no row, and then both
    handlers throw before any collaborator is called. *)
Theorem selection_keys_resolve (fd : list Flat.t) (sel : RowSelection) :
  (keys_in_range fd (JS.Object_keys sel) ->
   (exists ids,
      mapM (row_id_at fd) (JS.Object_keys sel) = ([], Normal ids)
      /\ length ids = length (JS.Object_keys sel))
   /\ completion (handleDelete sel fd) = Normal tt
   /\ completion (toggleDisableSelected sel fd) = Normal tt)
  /\ (forall k,
        ~ (exists n, JS.parseInt k = Some n
                     /\ 0 <= n < Z.of_nat (length fd)) ->
        JS.array_get fd (JS.parseInt k) = None)
  /\ (~ keys_in_range fd (JS.Object_keys sel) ->
      handleDelete sel fd = ([], Throw TypeError)
      /\ toggleDisableSelected sel fd = ([], Throw TypeError)).
Proof.
  split; [|split].
  - intros Hrange. destruct (keys_in_range_selects _ _ Hrange) as [rows Hsel].
    pose proof (mapM_row_id_at_selects _ _ _ Hsel) as Hmap.
    split; [|split].
    + exists (map Flat.id rows). split; [exact Hmap|].
      rewrite length_map. exact (selects_length _ _ _ Hsel).
    + rewrite (handleDelete_run _ _ _ Hsel). reflexivity.
    + unfold toggleDisableSelected. rewrite Hmap. cbn [bind].
      rewrite forEach_call. reflexivity.
  - intros k Hk. apply array_get_None. exact Hk.
  - intros Hnot.
    assert (Hbad : exists k, In k (JS.Object_keys sel)
                             /\ JS.array_get fd (JS.parseInt k) = None).
    { unfold keys_in_range in Hnot.
      induction (JS.Object_keys sel) as [|k keys IH].
      - exfalso. apply Hnot. intros k [].
      - destruct (JS.array_get fd (JS.parseInt k)) as [r|] eqn:Hget.
        + destruct IH as (k' & Hin & Hnone).
          * intros Hall. apply Hnot. intros k' [<-|Hin]; [|exact (Hall k' Hin)].
            apply array_get_Some in Hget.
            destruct Hget as (n & Hn & Hr & _). eauto.
          * exists k'. split; [right; exact Hin | exact Hnone].
        + exists k. split; [left; reflexivity | exact Hget]. }
    unfold handleDelete, toggleDisableSelected.
    rewrite (mapM_row_id_at_throws _ _ Hbad). split; reflexivity.
Qed.

(** A key left over from a longer table reads no row: the handler throws
    and [onDelete] is not called. *)
Example handleDelete_stale_key :
  handleDelete [("0"%string, true); ("3"%string, true)] Sample.three_rows
  = ([], Throw TypeError).
Proof.
  vm_compute. reflexivity.
Qed.

(** ** Row flattener *)

Lemma find_first_match (apMapping l1 l2 : list ApMapping.t)
  (ap : ApMapping.t) (raw : string) :
  apMapping = l1 ++ ap :: l2 ->
  (forall a, In a l1 -> ApMapping.macAddress a <> raw) ->
  ApMapping.macAddress ap = raw ->
  find (fun a => String.eqb (ApMapping.macAddress a) raw) apMapping = Some ap.
Proof.
  intros -> Hl1 Hap. induction l1 as [|a l1 IH]; cbn [app find].
  - rewrite (proj2 (String.eqb_eq _ _) Hap). reflexivity.
  - rewrite (proj2 (String.eqb_neq _ _) (Hl1 a (or_introl eq_refl))).
    apply IH. intros a' Ha'. apply Hl1. right. exact Ha'.
Qed.

Lemma find_no_match (apMapping : list ApMapping.t) (raw : string) :
  (forall a, In a apMapping -> ApMapping.macAddress a <> raw) ->
  find (fun a => String.eqb (ApMapping.macAddress a) raw) apMapping = None.
Proof.
  induction apMapping as [|a l IH]; intros Hno; cbn [find]; [reflexivity|].
  rewrite (proj2 (String.eqb_neq _ _) (Hno a (or_introl eq_refl))).
  apply IH. intros a' Ha'. apply Hno. right. exact Ha'.
Qed.

Lemma find_Some_first_match (apMapping : list ApMapping.t) (raw : string)
  (ap : ApMapping.t) :
  find (fun a => String.eqb (ApMapping.macAddress a) raw) apMapping = Some ap ->
  exists l1 l2,
    apMapping = l1 ++ ap :: l2
    /\ (forall a, In a l1 -> ApMapping.macAddress a <> raw)
    /\ ApMapping.macAddress ap = raw.
Proof.
  induction apMapping as [|a l IH]; cbn [find]; [discriminate|].
  destruct (String.eqb_spec (ApMapping.macAddress a) raw) as [Heq|Hne].
  - intros [= ->]. exists [], l. repeat split; [intros a' []|exact Heq].
  - intros Hfind. destruct (IH Hfind) as (l1 & l2 & -> & Hl1 & Hap).
    exists (a :: l1), l2. repeat split; [|exact Hap].
    intros a' [<-|Ha']; [exact Hne | exact (Hl1 a' Ha')].
Qed.

Lemma resolve_bssid_cases (apMapping : list ApMapping.t) (raw : string) :
  resolve_bssid apMapping raw
  = match find (fun a => String.eqb (ApMapping.macAddress a) raw) apMapping with
    | Some ap =>
        match ApMapping.apName ap with
        | EmptyString => raw
        | name => String.append name (String.append " (" (String.append raw ")"))
        end
    | None => raw
    end.
Proof.
  unfold resolve_bssid, mappedName. destruct apMapping as [|a l]; [reflexivity|].
  cbn [length Nat.ltb Nat.leb].
  destruct (find _ (a :: l)) as [ap|]; cbn [option_map]; [|reflexivity].
  destruct (ApMapping.apName ap); reflexivity.
Qed.

Section FlattenProperties.

Variable rssiToPercentage : JS.number -> JS.number.
Variable Number_toString : JS.number -> string.
Variable toLocaleString : string -> string.

Let row := flatten_point rssiToPercentage Number_toString toLocaleString.
Let rows := flattenedData rssiToPercentage Number_toString toLocaleString.
Let address (point : SurveyPoint.t) : string :=
  WifiData.bssid (SurveyPoint.wifiData point).

(** C3, as the code has it.  With a non-empty mapping list, the label of
    the flattened row is decided by the first mapping entry, in list order,
    whose address equals the record's link address: when that entry's
    [apName] is not empty the label is [apName], a space, and the address in
    parentheses; when no entry matches the label is the address
    unchanged. *)
Theorem flattened_label_first_match (point : SurveyPoint.t)
  (apMapping : list ApMapping.t) :
  apMapping <> [] ->
  (forall l1 ap l2,
     apMapping = l1 ++ ap :: l2 ->
     (forall a, In a l1 -> ApMapping.macAddress a <> address point) ->
     ApMapping.macAddress ap = address point ->
     ApMapping.apName ap <> EmptyString ->
     Flat.bssid (row apMapping point)
     = String.append (ApMapping.apName ap)
         (String.append " (" (String.append (address point) ")")))
  /\ ((forall a, In a apMapping -> ApMapping.macAddress a <> address point) ->
      Flat.bssid (row apMapping point) = address point).
Proof.
  intros _. unfold row, address. cbn [flatten_point Flat.bssid]. split.
  - intros l1 ap l2 Hsplit Hl1 Hap Hname.
    rewrite resolve_bssid_cases, (find_first_match _ _ _ _ _ Hsplit Hl1 Hap).
    destruct (ApMapping.apName ap); [congruence | reflexivity].
  - intros Hno. rewrite resolve_bssid_cases, (find_no_match _ _ Hno).
    reflexivity.
Qed.

(** C10.  When the first mapping entry whose address equals the record's
    link address has an empty [apName], the label of the flattened row is
    the raw address; a label other than the raw address is the formatted
    one, built from a first match whose [apName] is not empty. *)
Theorem flattened_label_empty_name_falls_back (point : SurveyPoint.t)
  (apMapping : list ApMapping.t) :
  (forall l1 ap l2,
     apMapping = l1 ++ ap :: l2 ->
     (forall a, In a l1 -> ApMapping.macAddress a <> address point) ->
     ApMapping.macAddress ap = address point ->
     ApMapping.apName ap = EmptyString ->
     Flat.bssid (row apMapping point) = address point)
  /\ (Flat.bssid (row apMapping point) <> address point ->
      exists l1 ap l2,
        apMapping = l1 ++ ap :: l2
        /\ (forall a, In a l1 -> ApMapping.macAddress a <> address point)
        /\ ApMapping.macAddress ap = address point
        /\ ApMapping.apName ap <> EmptyString
        /\ Flat.bssid (row apMapping point)
           = String.append (ApMapping.apName ap)
               (String.append " (" (String.append (address point) ")"))).
Proof.
  unfold row, address. cbn [flatten_point Flat.bssid]. split.
  - intros l1 ap l2 Hsplit Hl1 Hap Hname.
    rewrite resolve_bssid_cases, (find_first_match _ _ _ _ _ Hsplit Hl1 Hap).
    rewrite Hname. reflexivity.
  - rewrite resolve_bssid_cases.
    destruct (find _ apMapping) as [ap|] eqn:Hfind; [|congruence].
    destruct (find_Some_first_match _ _ _ Hfind) as (l1 & l2 & Hsplit & Hl1 & Hap).
    destruct (ApMapping.apName ap) as [|c name] eqn:Hname; [congruence|].
    intros _. exists l1, ap, l2. rewrite Hname.
    repeat split; try assumption. discriminate.
Qed.

(** C4.  Flattening with an empty mapping list gives one row per record,
    in the order of the records (row [i] is built from record [i] and
    carries its identifier), and the label of every row is the record's raw
    link address. *)
Theorem flatten_empty_mapping (data : list SurveyPoint.t) :
  length (rows data []) = length data
  /\ (forall i, nth_error (rows data []) i
                = option_map (row []) (nth_error data i))
  /\ map Flat.id (rows data []) = map SurveyPoint.id data
  /\ map Flat.bssid (rows data []) = map address data.
Proof.
  unfold rows, row, address, flattenedData. repeat split.
  - apply length_map.
  - intros i. apply nth_error_map.
  - rewrite map_map. reflexivity.
  - rewrite map_map. reflexivity.
Qed.

End FlattenProperties.

Lemma flattened_label_first_match_witness :
  Flat.bssid
    (flatten_point Sample.rssiToPercentage Sample.Number_toString
       Sample.toLocaleString [ApMapping.mk "AA:BB" "Router1"]
       (Sample.point "A" "AA:BB" false))
  = "Router1 (AA:BB)"%string.
Proof.
  refine (proj1 (flattened_label_first_match Sample.rssiToPercentage
                   Sample.Number_toString Sample.toLocaleString
                   (Sample.point "A" "AA:BB" false)
                   [ApMapping.mk "AA:BB" "Router1"] _)
            [] (ApMapping.mk "AA:BB" "Router1") [] eq_refl _ eq_refl _).
  - discriminate.
  - intros a [].
  - discriminate.
Defined.

(** C3, as the claim words it, fails: a first match with an empty [apName]
    gives the raw address, not an empty name followed by the address in
    parentheses. *)
Lemma flattened_label_always_formatted_counterexample :
  ~ (forall (point : SurveyPoint.t) (apMapping l1 l2 : list ApMapping.t)
            (ap : ApMapping.t),
       apMapping <> [] ->
       apMapping = l1 ++ ap :: l2 ->
       (forall a, In a l1 ->
          ApMapping.macAddress a <> WifiData.bssid (SurveyPoint.wifiData point)) ->
       ApMapping.macAddress ap = WifiData.bssid (SurveyPoint.wifiData point) ->
       Flat.bssid
         (flatten_point Sample.rssiToPercentage Sample.Number_toString
            Sample.toLocaleString apMapping point)
       = String.append (ApMapping.apName ap)
           (String.append " ("
              (String.append (WifiData.bssid (SurveyPoint.wifiData point)) ")"))).
Proof.
  intros Hclaim.
  specialize (Hclaim (Sample.point "A" "AA:BB" false)
                [ApMapping.mk "AA:BB" ""] [] [] (ApMapping.mk "AA:BB" "")).
  cbn in Hclaim.
  assert (H : "AA:BB"%string = " (AA:BB)"%string).
  { apply Hclaim; [discriminate | reflexivity | intros a [] | reflexivity]. }
  discriminate H.
Qed.

(** ** Column visibility *)

(** C5, on the code.  The table defines twenty column keys and the initial
    visibility state has eighteen entries: [udpDownloadMbps] and
    [udpUploadMbps] are columns without an entry.  Every other column key
    has one, nine of them [true] and nine [false], and every key of the
    state is a column key. *)
Theorem columnVisibility_lacks_udp_columns :
  length (map column_key columns) = 20%nat
  /\ size columnVisibility = 18%nat
  /\ keys_without_entry columnVisibility
     = ["udpDownloadMbps"%string; "udpUploadMbps"%string]
  /\ columnVisibility !! "udpDownloadMbps"%string = None
  /\ columnVisibility !! "udpUploadMbps"%string = None
  /\ List.filter (fun k => bool_decide (columnVisibility !! k = Some true))
       (map column_key columns)
     = [ "select"; "id"; "disable"; "signalQuality"; "bssid"; "frequency";
         "tcpDownloadMbps"; "tcpUploadMbps"; "timestamp" ]%string
  /\ List.filter (fun k => bool_decide (columnVisibility !! k = Some false))
       (map column_key columns)
     = [ "rssi"; "channel"; "ssid"; "security"; "txRate"; "phyMode";
         "channelWidth"; "x"; "y" ]%string
  /\ forallb (fun k => bool_decide (In k (map column_key columns)))
       (map fst (map_to_list columnVisibility)) = true.
Proof.
  repeat split; vm_compute; reflexivity.
Qed.

(** * Binary64 arithmetic *)

Lemma pow2_pos (e : Z) : (0 < pow2 e)%Q.
Proof. apply Qpower_0_lt. reflexivity. Qed.

Lemma pow2_add (a b : Z) : (pow2 (a + b) == pow2 a * pow2 b)%Q.
Proof. apply Qpower_plus. discriminate. Qed.

Lemma pow2_le (a b : Z) : a <= b -> (pow2 a <= pow2 b)%Q.
Proof. intros H. apply Qpower_le_compat_l; [exact H | discriminate]. Qed.

Lemma pow2_inject (n : Z) : 0 <= n -> (pow2 n == inject_Z (2 ^ n))%Q.
Proof. intros H. unfold pow2. rewrite Zpower_Qpower by exact H. reflexivity. Qed.

Lemma pow2_succ (e : Z) : (pow2 (e + 1) == 2 * pow2 e)%Q.
Proof. rewrite pow2_add. change (pow2 1) with 2%Q. ring. Qed.

Lemma F2Q_add (a b e : Z) : (F2Q (a + b) e == F2Q a e + F2Q b e)%Q.
Proof. unfold F2Q. rewrite inject_Z_plus. ring. Qed.

Lemma F2Q_one (e : Z) : (F2Q 1 e == pow2 e)%Q.
Proof. unfold F2Q. ring. Qed.

Lemma F2Q_double (a e : Z) : (F2Q (2 * a) e == 2 * F2Q a e)%Q.
Proof. unfold F2Q. rewrite inject_Z_mult. ring. Qed.

Lemma F2Q_succ_exp (a e : Z) : (F2Q a (e + 1) == 2 * F2Q a e)%Q.
Proof. unfold F2Q. rewrite pow2_succ. ring. Qed.

Lemma F2Q_le (a b e : Z) : a <= b -> (F2Q a e <= F2Q b e)%Q.
Proof.
  intros H. unfold F2Q. apply Qmult_le_compat_r.
  - rewrite <- Zle_Qle. exact H.
  - apply Qlt_le_weak, pow2_pos.
Qed.

Lemma F2Q_lt_inv (a b e : Z) : (F2Q a e < F2Q b e)%Q -> a < b.
Proof.
  intros H. destruct (Z.lt_ge_cases a b) as [Hlt|Hge]; [exact Hlt|].
  apply (F2Q_le _ _ e) in Hge. exfalso. lra.
Qed.

Lemma F2Q_shift (a e n : Z) : 0 <= n -> (F2Q (a * 2 ^ n) e == F2Q a (e + n))%Q.
Proof.
  intros H. unfold F2Q. rewrite inject_Z_mult, pow2_add, <- pow2_inject by exact H.
  ring.
Qed.

Lemma F2Q_pow2 (n e : Z) : 0 <= n -> (F2Q (2 ^ n) e == pow2 (n + e))%Q.
Proof.
  intros H. unfold F2Q. rewrite pow2_add, <- pow2_inject by exact H. reflexivity.
Qed.

(** The number of binary digits of a positive mantissa. *)
Lemma digits2_pos_bounds (m : positive) :
  2 ^ (Zpos (digits2_pos m) - 1) <= Zpos m < 2 ^ Zpos (digits2_pos m).
Proof.
  induction m as [m IH|m IH|]; cbn [digits2_pos].
  - rewrite Pos2Z.inj_succ, (Pos2Z.inj_xI m).
    set (d := Zpos (digits2_pos m)) in *.
    replace (Z.succ d - 1) with (Z.succ (d - 1)) by lia.
    rewrite !Z.pow_succ_r by lia.
    generalize dependent (2 ^ (d - 1)). generalize (2 ^ d). intros; lia.
  - rewrite Pos2Z.inj_succ, (Pos2Z.inj_xO m).
    set (d := Zpos (digits2_pos m)) in *.
    replace (Z.succ d - 1) with (Z.succ (d - 1)) by lia.
    rewrite !Z.pow_succ_r by lia.
    generalize dependent (2 ^ (d - 1)). generalize (2 ^ d). intros; lia.
  - cbn. lia.
Qed.

Lemma Zdigits2_bounds (m : Z) :
  0 < m -> 2 ^ (Zdigits2 m - 1) <= m < 2 ^ Zdigits2 m.
Proof.
  destruct m as [|p|p]; try lia. intros _. apply digits2_pos_bounds.
Qed.

Lemma Zdigits2_nonneg (m : Z) : 0 <= Zdigits2 m.
Proof. destruct m; cbn; lia. Qed.

Lemma Zdigits2_le (m : Z) (n : Z) : 0 <= m < 2 ^ n -> 0 <= n -> Zdigits2 m <= n.
Proof.
  intros [H0 Hm] Hn. destruct (Z.eq_dec m 0) as [->|Hne]; [cbn; lia|].
  destruct (Zdigits2_bounds m ltac:(lia)) as [Hlo _].
  destruct (Z.le_gt_cases (Zdigits2 m) n) as [Hle|Hgt]; [exact Hle|].
  assert (2 ^ n <= 2 ^ (Zdigits2 m - 1)) by (apply Z.pow_le_mono_r; lia).
  lia.
Qed.

Lemma Zdigits2_ge (m : Z) (n : Z) : 2 ^ (n - 1) <= m -> 0 < m -> n <= Zdigits2 m.
Proof.
  intros Hm H0. destruct (Zdigits2_bounds m H0) as [_ Hhi].
  destruct (Z.le_gt_cases n (Zdigits2 m)) as [Hle|Hgt]; [exact Hle|].
  pose proof (Zdigits2_nonneg m).
  assert (2 ^ Zdigits2 m <= 2 ^ (n - 1)) by (apply Z.pow_le_mono_r; lia).
  lia.
Qed.

(** ** Shifting a mantissa right keeps track of where the value lies *)

Lemma F2Q_zero (e : Z) : (F2Q 0 e == 0)%Q.
Proof. unfold F2Q. ring. Qed.

Lemma F2Q_xO (p : positive) (e : Z) :
  (F2Q (Zpos p~0) e == 2 * F2Q (Zpos p) e)%Q.
Proof. rewrite (Pos2Z.inj_xO p). apply F2Q_double. Qed.

Lemma F2Q_xI (p : positive) (e : Z) :
  (F2Q (Zpos p~1) e == 2 * F2Q (Zpos p) e + pow2 e)%Q.
Proof. rewrite (Pos2Z.inj_xI p), F2Q_add, F2Q_double, F2Q_one. reflexivity. Qed.

Lemma shr_1_inv (q : Q) (e : Z) (mrs : shr_record) :
  shr_inv q e mrs -> shr_inv q (e + 1) (shr_1 mrs).
Proof.
  destruct mrs as [m r s]. unfold shr_inv. cbn [shr_m loc_of_shr_record].
  intros [Hm Hq]. pose proof (pow2_pos e) as HP.
  destruct m as [|[p|p|]|]; try lia;
    destruct r, s; cbn [shr_1 shr_m loc_of_shr_record orb];
    (split; [lia|]); unfold inbetween in *;
    change (F2Q 1 e) with (F2Q (0 + 1) e) in Hq;
    repeat first
      [ rewrite F2Q_add in Hq | rewrite F2Q_xO in Hq | rewrite F2Q_xI in Hq
      | rewrite F2Q_one in Hq | rewrite F2Q_zero in Hq ];
    repeat first
      [ rewrite F2Q_add | rewrite F2Q_succ_exp | rewrite F2Q_xO
      | rewrite F2Q_xI | rewrite F2Q_one | rewrite F2Q_zero ];
    lra.
Qed.

Lemma iter_pos_inv {A : Type} (f : A -> A) (Inv : Z -> A -> Prop) :
  (forall k x, Inv k x -> Inv (k + 1) (f x)) ->
  forall p k x, Inv k x -> Inv (k + Zpos p) (SpecFloat.iter_pos f p x).
Proof.
  intros Hstep. induction p as [p IH|p IH|]; intros k x Hx; cbn [SpecFloat.iter_pos].
  - replace (k + Zpos p~1) with (k + 1 + Zpos p + Zpos p) by lia.
    apply IH, IH, Hstep, Hx.
  - replace (k + Zpos p~0) with (k + Zpos p + Zpos p) by lia.
    apply IH, IH, Hx.
  - apply Hstep, Hx.
Qed.

Lemma loc_of_shr_record_of_loc (m : Z) (l : location) :
  loc_of_shr_record (shr_record_of_loc m l) = l.
Proof. destruct l as [|[]]; reflexivity. Qed.

Lemma shr_m_shr_record_of_loc (m : Z) (l : location) :
  shr_m (shr_record_of_loc m l) = m.
Proof. destruct l as [|[]]; reflexivity. Qed.

(** Shifting to a higher exponent. *)
Lemma shr_inv_shift (q : Q) (m e e1 : Z) (l : location) :
  0 <= m -> inbetween m e l q -> e <= e1 ->
  exists mrs,
    shr (shr_record_of_loc m l) e (e1 - e) = (mrs, e1) /\ shr_inv q e1 mrs.
Proof.
  intros Hm Hq He.
  assert (Hinv : shr_inv q e (shr_record_of_loc m l)).
  { unfold shr_inv.
    rewrite shr_m_shr_record_of_loc, loc_of_shr_record_of_loc. auto. }
  unfold shr. destruct (e1 - e) as [|p|p] eqn:Hd; try lia.
  - exists (shr_record_of_loc m l). replace e1 with e by lia. auto.
  - exists (SpecFloat.iter_pos shr_1 p (shr_record_of_loc m l)).
    replace (e + Zpos p) with e1 by lia. split; [reflexivity|].
    replace e1 with (e + Zpos p) by lia.
    apply (iter_pos_inv shr_1 (shr_inv q) (shr_1_inv q)). exact Hinv.
Qed.

Lemma inbetween_bounds (m e : Z) (l : location) (q : Q) :
  inbetween m e l q -> (F2Q m e <= q /\ q < F2Q (m + 1) e)%Q.
Proof.
  pose proof (pow2_pos e) as HP. unfold inbetween.
  destruct l as [|[]]; rewrite F2Q_add, F2Q_one; lra.
Qed.

Lemma fexp64_eq (e : Z) : fexp64 e = Z.max (e - 53) (-1074).
Proof. reflexivity. Qed.

(** The first half of [binary_round_aux]: the mantissa is brought to the
    exponent of the binary64 format. *)
Lemma shr_fexp_rounded_at (q : Q) (m e : Z) (l : location) :
  0 <= m -> inbetween m e l q -> e <= fexp64 (Zdigits2 m + e) ->
  exists mrs,
    shr_fexp JS.prec JS.emax m e l = (mrs, fexp64 (Zdigits2 m + e))
    /\ rounded_at q (shr_m mrs) (fexp64 (Zdigits2 m + e))
         (loc_of_shr_record mrs).
Proof.
  intros Hm Hq He. set (d := Zdigits2 m) in *.
  set (e1 := fexp64 (d + e)) in *.
  destruct (shr_inv_shift q m e e1 l Hm Hq He) as (mrs & Hshr & Hm1 & Hq1).
  exists mrs. split; [exact Hshr|].
  assert (He1 : e1 = Z.max (d + e - 53) (-1074)) by reflexivity.
  pose proof (Zdigits2_nonneg m) as Hd. fold d in Hd.
  destruct (inbetween_bounds _ _ _ _ Hq) as [Hlo Hhi].
  destruct (inbetween_bounds _ _ _ _ Hq1) as [Hlo1 Hhi1].
  unfold rounded_at. split; [exact Hq1|]. split; [|split].
  - split; [exact Hm1|]. apply (F2Q_lt_inv _ _ e1).
    rewrite (F2Q_pow2 53 e1) by lia.
    assert (Hm' : m + 1 <= 2 ^ d).
    { destruct (Z.eq_dec m 0) as [->|Hne]; [cbn; lia|].
      pose proof (Zdigits2_bounds m ltac:(lia)). fold d in H. lia. }
    pose proof (F2Q_le _ _ e Hm') as Hle. rewrite (F2Q_pow2 d e) in Hle by lia.
    pose proof (pow2_le (d + e) (53 + e1) ltac:(lia)). lra.
  - lia.
  - intros Hnorm. assert (Hm0 : 0 < m).
    { destruct (Z.eq_dec m 0) as [Heq|Hne]; [|lia]. exfalso.
      unfold d in *. rewrite Heq in *. cbn [Zdigits2] in *. lia. }
    pose proof (Zdigits2_bounds m Hm0) as [Hdlo _]. fold d in Hdlo.
    pose proof (F2Q_le _ _ e Hdlo) as Hle.
    rewrite (F2Q_pow2 (d - 1) e) in Hle by lia.
    replace (d - 1 + e) with (52 + e1) in Hle by lia.
    rewrite <- (F2Q_pow2 52 e1) in Hle by lia.
    assert (Hlt : (F2Q (2 ^ 52) e1 < F2Q (shr_m mrs + 1) e1)%Q) by lra.
    apply F2Q_lt_inv in Hlt. lia.
Qed.

Lemma round_nearest_even_range (m : Z) (l : location) :
  m <= round_nearest_even m l <= m + 1.
Proof.
  destruct l as [|[]]; cbn [round_nearest_even]; try destruct (Z.even m); lia.
Qed.

(** The second half of [binary_round_aux], by cases on the rounded
    mantissa. *)
Lemma finish_cases (m e : Z) :
  0 <= m <= 2 ^ 53 -> -1074 <= e ->
  finish m e
  = if m =? 0 then S754_zero false
    else if m =? 2 ^ 53
         then if e + 1 <=? 971 then S754_finite false (2 ^ 52) (e + 1)
              else S754_infinity false
         else if e <=? 971 then S754_finite false (Z.to_pos m) e
              else S754_infinity false.
Proof.
  intros Hm He. unfold finish, shr_fexp.
  destruct (Z.eqb_spec m 0) as [->|Hm0].
  - cbn [Zdigits2 shr_record_of_loc]. unfold shr.
    pose proof (fexp64_eq (0 + e)) as Hf. unfold fexp64 in Hf. rewrite Hf.
    destruct (Z.max (0 + e - 53) (-1074) - e) eqn:Hd; try lia; reflexivity.
  - destruct (Z.eqb_spec m (2 ^ 53)) as [->|Hm53].
    + change (Zdigits2 (2 ^ 53)) with 54.
      pose proof (fexp64_eq (54 + e)) as Hf. unfold fexp64 in Hf. rewrite Hf.
      replace (Z.max (54 + e - 53) (-1074) - e) with 1 by lia.
      cbn [shr shr_record_of_loc SpecFloat.iter_pos shr_1 shr_m].
      change (JS.emax - JS.prec) with 971.
      replace (e + 1) with (e + 1) by lia. reflexivity.
    + assert (Hd : Zdigits2 m <= 53) by (apply Zdigits2_le; lia).
      pose proof (Zdigits2_nonneg m).
      pose proof (fexp64_eq (Zdigits2 m + e)) as Hf. unfold fexp64 in Hf.
      rewrite Hf. unfold shr.
      destruct (Z.max (Zdigits2 m + e - 53) (-1074) - e) eqn:Hsh; try lia;
        cbn [shr_record_of_loc shr_m]; change (JS.emax - JS.prec) with 971;
        destruct m; try lia; reflexivity.
Qed.

Lemma bounded_iff (m : positive) (e : Z) :
  bounded JS.prec JS.emax m e = true <->
  Zpos m < 2 ^ 53 /\ -1074 <= e <= 971 /\ (-1074 < e -> 2 ^ 52 <= Zpos m).
Proof.
  unfold bounded, canonical_mantissa. rewrite andb_true_iff, Z.eqb_eq, Z.leb_le.
  change (JS.emax - JS.prec) with 971.
  pose proof (fexp64_eq (Zpos (digits2_pos m) + e)) as Hf. unfold fexp64 in Hf.
  rewrite Hf. pose proof (digits2_pos_bounds m) as [Hlo Hhi].
  set (d := Zpos (digits2_pos m)) in *. assert (Hd : 0 < d) by (unfold d; lia).
  split.
  - intros [Hc He]. assert (Hd53 : d <= 53) by lia.
    split; [|split; [lia|]].
    + assert (2 ^ d <= 2 ^ 53) by (apply Z.pow_le_mono_r; lia). lia.
    + intros Hn. assert (d = 53) by lia. subst d. rewrite H in Hlo. exact Hlo.
  - intros (Hm & He & Hn).
    assert (Hd53 : d <= 53).
    { destruct (Z.le_gt_cases d 53) as [Hle|Hgt]; [exact Hle|].
      assert (2 ^ 53 <= 2 ^ (d - 1)) by (apply Z.pow_le_mono_r; lia). lia. }
    split; [|lia].
    destruct (Z.eq_dec e (-1074)) as [->|Hne]; [lia|].
    assert (Hd' : 53 <= d).
    { destruct (Z.le_gt_cases 53 d) as [Hle|Hgt]; [exact Hle|].
      assert (2 ^ d <= 2 ^ 52) by (apply Z.pow_le_mono_r; lia).
      specialize (Hn ltac:(lia)). lia. }
    lia.
Qed.

(** What [finish] returns is a number of the domain. *)
Lemma finish_nonneg (m e : Z) :
  0 <= m <= 2 ^ 53 -> -1074 <= e -> (-1074 < e -> 2 ^ 52 <= m) ->
  nonneg (finish m e).
Proof.
  intros Hm He Hn. rewrite finish_cases by assumption.
  destruct (Z.eqb_spec m 0); [exact I|].
  destruct (Z.eqb_spec m (2 ^ 53)).
  - destruct (Z.leb_spec (e + 1) 971); [|reflexivity].
    split; [reflexivity|]. apply bounded_iff. lia.
  - destruct (Z.leb_spec e 971); [|reflexivity].
    split; [reflexivity|]. apply bounded_iff.
    rewrite Z2Pos.id by lia. lia.
Qed.

Lemma rounds_to_nonneg (q : Q) (x : JS.number) : rounds_to q x -> nonneg x.
Proof.
  intros (m & e & l & (Hq & Hm & He & Hn) & ->).
  pose proof (round_nearest_even_range m l).
  apply finish_nonneg; lia.
Qed.

(** ** Order *)

Lemma SFleb_finite (m m' : positive) (e e' : Z) :
  SFleb (S754_finite false m e) (S754_finite false m' e') = true <->
  e < e' \/ (e = e' /\ Zpos m <= Zpos m').
Proof.
  unfold SFleb. cbn [SFcompare]. rewrite Pos.compare_cont_spec. cbn [Pos.switch_Eq].
  destruct (Z.compare_spec e e') as [Heq|Hlt|Hgt].
  - destruct (Pos.compare_spec m m') as [Hm|Hm|Hm]; split; intros H;
      try discriminate; try reflexivity; try lia.
  - split; [lia | reflexivity].
  - split; [discriminate | lia].
Qed.

Lemma SFleb_zero_l (s : bool) (x : JS.number) :
  nonneg x -> SFleb (S754_zero s) x = true.
Proof. destruct x as [|[]| |[] ? ?]; cbn; intuition (try discriminate). Qed.

Lemma SFleb_infinity_r (x : JS.number) :
  nonneg x -> SFleb x (S754_infinity false) = true.
Proof. destruct x as [|[]| |[] ? ?]; cbn; intuition (try discriminate). Qed.

(** Rounding to nearest within one cell respects the order of the exact
    values. *)
Lemma round_nearest_even_mono (q q' : Q) (m m' e : Z) (l l' : location) :
  inbetween m e l q -> inbetween m' e l' q' -> (q <= q')%Q ->
  round_nearest_even m l <= round_nearest_even m' l'.
Proof.
  intros Hq Hq' Hle.
  destruct (inbetween_bounds _ _ _ _ Hq) as [Hlo Hhi].
  destruct (inbetween_bounds _ _ _ _ Hq') as [Hlo' Hhi'].
  pose proof (round_nearest_even_range m l).
  pose proof (round_nearest_even_range m' l').
  assert (Hmm : m <= m').
  { assert (Hlt : (F2Q m e < F2Q (m' + 1) e)%Q) by lra.
    apply F2Q_lt_inv in Hlt. lia. }
  destruct (Z.eq_dec m m') as [<-|Hne]; [|lia].
  pose proof (pow2_pos e) as HP. clear Hlo Hhi Hlo' Hhi'.
  pose proof (F2Q_add m 1 e) as Hs. rewrite F2Q_one in Hs.
  destruct l as [|[]], l' as [|[]]; cbn [round_nearest_even];
    try destruct (Z.even m); try lia; exfalso;
    unfold inbetween in Hq, Hq'; lra.
Qed.

(** Rounding is monotone: exact values in order round to numbers in
    order. *)
Lemma rounds_to_mono (q q' : Q) (x x' : JS.number) :
  rounds_to q x -> rounds_to q' x' -> (q <= q')%Q -> SFleb x x' = true.
Proof.
  intros (m & e & l & (Hq & Hm & He & Hn) & ->)
         (m' & e' & l' & (Hq' & Hm' & He' & Hn') & ->) Hle.
  destruct (inbetween_bounds _ _ _ _ Hq) as [Hlo Hhi].
  destruct (inbetween_bounds _ _ _ _ Hq') as [Hlo' Hhi'].
  assert (Hee : e <= e').
  { destruct (Z.le_gt_cases e e') as [H|H]; [exact H|]. exfalso.
    specialize (Hn ltac:(lia)).
    pose proof (F2Q_le _ _ e Hn) as H1. rewrite (F2Q_pow2 52 e) in H1 by lia.
    assert (H2 : m' + 1 <= 2 ^ 53) by lia.
    apply (F2Q_le _ _ e') in H2. rewrite (F2Q_pow2 53 e') in H2 by lia.
    pose proof (pow2_le (53 + e') (52 + e) ltac:(lia)). lra. }
  pose proof (round_nearest_even_range m l) as Hr.
  pose proof (round_nearest_even_range m' l') as Hr'.
  assert (Hsame : e = e' ->
                  round_nearest_even m l <= round_nearest_even m' l').
  { intros <-. exact (round_nearest_even_mono _ _ _ _ _ _ _ Hq Hq' Hle). }
  set (r := round_nearest_even m l) in *.
  set (r' := round_nearest_even m' l') in *.
  rewrite !finish_cases by lia.
  destruct (Z.eqb_spec r 0) as [Hr0|Hr0].
  { apply SFleb_zero_l. rewrite <- finish_cases by lia.
    apply finish_nonneg; lia. }
  destruct (Z.eqb_spec r' 0) as [Hr0'|Hr0'].
  { exfalso. assert (e < e') by lia. lia. }
  destruct (Z.eqb_spec r (2 ^ 53)) as [Hr53|Hr53];
    destruct (Z.eqb_spec r' (2 ^ 53)) as [Hr53'|Hr53'];
    repeat match goal with
           | |- context [Z.leb ?a ?b] => destruct (Z.leb_spec a b)
           end;
    try reflexivity; try (exfalso; lia);
    apply SFleb_finite; rewrite ?Z2Pos.id by lia;
    change (Zpos (2 ^ 52)) with (2 ^ 52); lia.
Qed.

Lemma bounded_rounds_to (m : positive) (e : Z) :
  bounded JS.prec JS.emax m e = true ->
  rounds_to (F2Q (Zpos m) e) (S754_finite false m e).
Proof.
  intros Hb. apply bounded_iff in Hb. destruct Hb as (Hm & He & Hn).
  exists (Zpos m), e, loc_Exact. split.
  - unfold rounded_at, inbetween. split; [reflexivity|]. lia.
  - cbn [round_nearest_even]. rewrite finish_cases by lia.
    destruct (Z.eqb_spec (Zpos m) 0); [lia|].
    destruct (Z.eqb_spec (Zpos m) (2 ^ 53)); [lia|].
    destruct (Z.leb_spec e 971); [reflexivity | lia].
Qed.

Lemma zero_rounds_to (q : Q) : (q == 0)%Q -> rounds_to q (S754_zero false).
Proof.
  intros Hq. exists 0, (-1074), loc_Exact. split.
  - unfold rounded_at, inbetween. rewrite F2Q_zero. split; [exact Hq|]. lia.
  - reflexivity.
Qed.

(** On positive finite numbers in canonical form, [<=] is the order of the
    values. *)
Lemma SFleb_B2Q (m m' : positive) (e e' : Z) :
  bounded JS.prec JS.emax m e = true ->
  bounded JS.prec JS.emax m' e' = true ->
  SFleb (S754_finite false m e) (S754_finite false m' e') = true ->
  (F2Q (Zpos m) e <= F2Q (Zpos m') e')%Q.
Proof.
  intros Hb Hb' Hle. apply bounded_iff in Hb, Hb'. apply SFleb_finite in Hle.
  destruct Hb as (Hm & He & Hn), Hb' as (Hm' & He' & Hn').
  destruct Hle as [Hlt|[<- Hmm]]; [|apply F2Q_le; exact Hmm].
  specialize (Hn' ltac:(lia)).
  assert (H1 : Zpos m <= 2 ^ 53) by lia.
  apply (F2Q_le _ _ e) in H1. rewrite (F2Q_pow2 53 e) in H1 by lia.
  apply (F2Q_le _ _ e') in Hn'. rewrite (F2Q_pow2 52 e') in Hn' by lia.
  pose proof (pow2_le (53 + e) (52 + e') ltac:(lia)). lra.
Qed.

(** ** The arithmetic operations round the exact result *)

Lemma binary_round_aux_rounds_to (q : Q) (m e : Z) (l : location) :
  0 <= m -> inbetween m e l q -> e <= fexp64 (Zdigits2 m + e) ->
  rounds_to q (binary_round_aux JS.prec JS.emax false m e l).
Proof.
  intros Hm Hq He.
  destruct (shr_fexp_rounded_at q m e l Hm Hq He) as (mrs & Hshr & Hr).
  unfold binary_round_aux. rewrite Hshr.
  exists (shr_m mrs), (fexp64 (Zdigits2 m + e)), (loc_of_shr_record mrs).
  split; [exact Hr | reflexivity].
Qed.

Lemma rounds_to_compat (q q' : Q) (x : JS.number) :
  (q == q')%Q -> rounds_to q x -> rounds_to q' x.
Proof.
  intros Heq (m & e & l & (Hq & Hrest) & Hx). exists m, e, l.
  split; [|exact Hx]. split; [|exact Hrest].
  unfold inbetween in *. destruct l as [|[]]; lra.
Qed.

Lemma mul_rounds_to (mx my : positive) (ex ey : Z) :
  bounded JS.prec JS.emax mx ex = true ->
  bounded JS.prec JS.emax my ey = true ->
  rounds_to (F2Q (Zpos mx) ex * F2Q (Zpos my) ey)
    (JS.mul (S754_finite false mx ex) (S754_finite false my ey)).
Proof.
  intros Hx Hy. apply bounded_iff in Hx, Hy.
  destruct Hx as (Hmx & Hex & Hnx), Hy as (Hmy & Hey & Hny).
  unfold JS.mul, SFmul. cbn [xorb].
  apply binary_round_aux_rounds_to.
  - lia.
  - unfold inbetween, F2Q. rewrite Pos2Z.inj_mul, inject_Z_mult, pow2_add. ring.
  - rewrite fexp64_eq.
    destruct (Z.le_gt_cases (ex + ey) (-1074)) as [Hsub|Hnorm]; [lia|].
    assert (Hprod : 2 ^ 52 <= Zpos (mx * my)).
    { rewrite Pos2Z.inj_mul.
      destruct (Z.eq_dec ex (-1074)) as [Hx0|Hx0].
      - specialize (Hny ltac:(lia)). nia.
      - specialize (Hnx ltac:(lia)). nia. }
    pose proof (Zdigits2_ge (Zpos (mx * my)) 53 Hprod ltac:(lia)). lia.
Qed.

(** The place of a quotient with remainder [r] out of [d] steps. *)
Lemma new_location_inbetween (d : positive) (r m e : Z) :
  0 <= r < Zpos d ->
  inbetween m e (new_location (Zpos d) r) (F2Q m e + (r # d) * pow2 e)%Q.
Proof.
  intros Hr. pose proof (pow2_pos e) as HP.
  pose proof (F2Q_add m 1 e) as Hs. rewrite F2Q_one in Hs.
  assert (Hcmp : new_location (Zpos d) r
                 = if r =? 0 then loc_Exact
                   else loc_Inexact (2 * r ?= Zpos d)).
  { unfold new_location, new_location_even, new_location_odd.
    destruct (Z.even (Zpos d)) eqn:Heven; [reflexivity|].
    destruct (r =? 0); [reflexivity|]. f_equal.
    assert (Hodd : Zpos d <> 2 * r).
    { intros Heq. rewrite Heq, Z.even_mul in Heven. discriminate. }
    destruct (Z.compare_spec (2 * r + 1) (Zpos d)),
             (Z.compare_spec (2 * r) (Zpos d)); try reflexivity; lia. }
  rewrite Hcmp. set (t := (r # d)%Q).
  destruct (Z.eqb_spec r 0) as [->|Hr0].
  - unfold inbetween. assert (Ht : (t == 0)%Q) by reflexivity.
    rewrite Ht. ring.
  - assert (Ht0 : (0 < t)%Q) by (unfold t, Qlt; cbn; lia).
    assert (Ht1 : (t < 1)%Q) by (unfold t, Qlt; cbn; lia).
    assert (H0 : (0 < t * pow2 e)%Q) by (apply Qmult_lt_0_compat; assumption).
    assert (H1 : (t * pow2 e < pow2 e)%Q).
    { rewrite <- (Qmult_1_l (pow2 e)) at 2.
      apply Qmult_lt_compat_r; assumption. }
    unfold inbetween.
    destruct (Z.compare_spec (2 * r) (Zpos d)) as [Heq|Hlt|Hgt].
    + assert (Ht : (t == 1 # 2)%Q) by (unfold t, Qeq; cbn; lia).
      rewrite Ht. lra.
    + assert (Ht : (t < 1 # 2)%Q) by (unfold t, Qlt; cbn; lia).
      assert (H2 : (t * pow2 e < (1 # 2) * pow2 e)%Q)
        by (apply Qmult_lt_compat_r; assumption).
      lra.
    + assert (Ht : ((1 # 2) < t)%Q) by (unfold t, Qlt; cbn; lia).
      assert (H2 : ((1 # 2) * pow2 e < t * pow2 e)%Q)
        by (apply Qmult_lt_compat_r; assumption).
      lra.
Qed.

Lemma F2Q_pos (m : positive) (e : Z) : (0 < F2Q (Zpos m) e)%Q.
Proof.
  unfold F2Q. apply Qmult_lt_0_compat; [reflexivity | apply pow2_pos].
Qed.

Lemma div_rounds_to (mx my : positive) (ex ey : Z) :
  rounds_to (F2Q (Zpos mx) ex / F2Q (Zpos my) ey)
    (JS.div (S754_finite false mx ex) (S754_finite false my ey)).
Proof.
  unfold JS.div, SFdiv, SFdiv_core_binary. cbn [xorb].
  fold (fexp64 (Zdigits2 (Zpos mx) + ex - (Zdigits2 (Zpos my) + ey))).
  set (dx := Zdigits2 (Zpos mx)). set (dy := Zdigits2 (Zpos my)).
  set (e' := Z.min (fexp64 (dx + ex - (dy + ey))) (ex - ey)).
  set (s := ex - ey - e').
  assert (Hs : 0 <= s) by (unfold s, e'; lia).
  set (m' := match s with
             | 0 => Zpos mx
             | Zpos _ => Z.shiftl (Zpos mx) s
             | Zneg _ => 0
             end).
  assert (Hm' : m' = Zpos mx * 2 ^ s).
  { unfold m'. destruct s as [|p|p] eqn:Hsp; try lia.
    apply Z.shiftl_mul_pow2. lia. }
  pose proof (Z_div_mod m' (Zpos my) ltac:(lia)) as Hdiv.
  destruct (Z.div_eucl m' (Zpos my)) as [qz r]. destruct Hdiv as [Hqr Hr].
  assert (Hpow : 0 < 2 ^ s) by (apply Z.pow_pos_nonneg; lia).
  assert (Hqz : 0 <= qz) by nia.
  apply (rounds_to_compat (F2Q qz e' + (r # my) * pow2 e')%Q).
  { assert (Hx : (F2Q (Zpos mx) ex == F2Q m' (e' + ey))%Q).
    { rewrite Hm', F2Q_shift by exact Hs. unfold s.
      replace (e' + ey + (ex - ey - e')) with ex by lia. reflexivity. }
    rewrite Hx. unfold F2Q. rewrite pow2_add, Hqr, (Qmake_Qdiv r my).
    rewrite inject_Z_plus, inject_Z_mult.
    pose proof (pow2_pos ey). pose proof (pow2_pos e').
    assert (Hmy : (0 < inject_Z (Zpos my))%Q) by reflexivity.
    field. split; lra. }
  apply binary_round_aux_rounds_to.
  - exact Hqz.
  - apply new_location_inbetween. exact Hr.
  - rewrite fexp64_eq.
    destruct (Z.le_gt_cases e' (-1074)) as [Hsub|Hnorm]; [lia|].
    assert (He' : e' <= dx + ex - (dy + ey) - 53)
      by (unfold e' in *; rewrite fexp64_eq in *; lia).
    pose proof (digits2_pos_bounds mx) as [Hxlo _].
    pose proof (digits2_pos_bounds my) as [_ Hyhi].
    fold (Zdigits2 (Zpos mx)) in Hxlo. fold (Zdigits2 (Zpos my)) in Hyhi.
    fold dx in Hxlo. fold dy in Hyhi.
    assert (Hdx : 0 < dx) by (unfold dx; cbn; lia).
    assert (Hdy : 0 < dy) by (unfold dy; cbn; lia).
    assert (Hbig : 2 ^ (dy + 52) <= m').
    { rewrite Hm'.
      assert (2 ^ (dy + 52) <= 2 ^ (dx - 1 + s))
        by (apply Z.pow_le_mono_r; unfold s; lia).
      rewrite (Z.pow_add_r 2 (dx - 1) s) in H by lia.
      apply (Z.le_trans _ _ _ H). apply Z.mul_le_mono_nonneg_r; lia. }
    assert (Hq52 : 2 ^ 52 <= qz).
    { rewrite Z.pow_add_r in Hbig by lia.
      destruct (Z.le_gt_cases (2 ^ 52) qz) as [Hle|Hgt]; [exact Hle|].
      exfalso. assert (qz + 1 <= 2 ^ 52) by lia. nia. }
    pose proof (Zdigits2_ge qz 53 Hq52 ltac:(lia)). lia.
Qed.

Lemma binary_round_rounds_to (mx : positive) (ex : Z) :
  rounds_to (F2Q (Zpos mx) ex) (binary_round JS.prec JS.emax false mx ex).
Proof.
  unfold binary_round, shl_align.
  fold (fexp64 (Zpos (digits2_pos mx) + ex)).
  fold (Zdigits2 (Zpos mx)). set (dx := Zdigits2 (Zpos mx)).
  pose proof (digits2_pos_bounds mx) as [Hxlo _].
  fold (Zdigits2 (Zpos mx)) in Hxlo. fold dx in Hxlo.
  assert (Hdx : 0 < dx) by (unfold dx; cbn; lia).
  destruct (fexp64 (dx + ex) - ex) as [|d|d] eqn:Hd.
  - apply binary_round_aux_rounds_to; [lia | reflexivity | fold dx; lia].
  - apply binary_round_aux_rounds_to; [lia | reflexivity | fold dx; lia].
  - fold (shift_pos d mx).
    assert (Hsh : Zpos (shift_pos d mx) = Zpos mx * 2 ^ Zpos d).
    { rewrite shift_pos_correct. change (Z.pow_pos 2 d) with (2 ^ Zpos d). lia. }
    apply binary_round_aux_rounds_to.
    + lia.
    + unfold inbetween. rewrite Hsh, F2Q_shift by lia.
      replace (fexp64 (dx + ex) + Zpos d) with ex by lia. reflexivity.
    + assert (Hlow : 2 ^ (dx + Zpos d - 1) <= Zpos (shift_pos d mx)).
      { rewrite Hsh. replace (dx + Zpos d - 1) with (dx - 1 + Zpos d) by lia.
        rewrite Z.pow_add_r by lia.
        assert (0 < 2 ^ Zpos d) by (apply Z.pow_pos_nonneg; lia). nia. }
      pose proof (Zdigits2_ge _ _ Hlow ltac:(lia)) as Hge.
      rewrite !fexp64_eq in *. lia.
Qed.

Lemma half_up_mono (v v' : Q) (r r' : Z) :
  half_up v r -> half_up v' r' -> (v <= v')%Q -> r <= r'.
Proof.
  unfold half_up. intros [Hlo _] [_ Hhi'] Hle.
  assert (H : (inject_Z r < inject_Z (r' + 1))%Q)
    by (rewrite inject_Z_plus; change (inject_Z 1) with 1%Q; lra).
  rewrite <- Zlt_Qlt in H. lia.
Qed.

(** [Math.round] of a positive finite number, by cases on its exponent. *)
Lemma Math_round_cases (m : positive) (e : Z) :
  exists r,
    half_up (F2Q (Zpos m) e) r
    /\ ((0 <= e /\ r = Zpos m * 2 ^ e
         /\ JS.Math_round (S754_finite false m e) = S754_finite false m e)
        \/ (e < 0 /\ 0 <= r <= Zpos m
            /\ JS.Math_round (S754_finite false m e)
               = if r =? 0 then S754_zero false
                 else binary_normalize JS.prec JS.emax r 0 false)).
Proof.
  cbn [JS.Math_round]. destruct (Z.leb_spec 0 e) as [He|He].
  - exists (Zpos m * 2 ^ e). split; [|left; auto].
    unfold half_up, F2Q.
    rewrite inject_Z_mult, <- pow2_inject by exact He. lra.
  - set (k := - e). assert (Hk : 0 < k) by (unfold k; lia).
    set (n := (Zpos m + 2 ^ (k - 1)) / 2 ^ k). exists n.
    assert (Hpk : 0 < 2 ^ k) by (apply Z.pow_pos_nonneg; lia).
    assert (Hpk1 : 0 < 2 ^ (k - 1)) by (apply Z.pow_pos_nonneg; lia).
    assert (Hdouble : 2 ^ k = 2 * 2 ^ (k - 1)).
    { replace k with (Z.succ (k - 1)) at 1 by lia. apply Z.pow_succ_r. lia. }
    assert (Hn : 2 ^ k * n <= Zpos m + 2 ^ (k - 1) < 2 ^ k * (n + 1)).
    { pose proof (Z.div_mod (Zpos m + 2 ^ (k - 1)) (2 ^ k) ltac:(lia)) as Hdm.
      pose proof (Z.mod_pos_bound (Zpos m + 2 ^ (k - 1)) (2 ^ k) Hpk).
      fold n in Hdm. lia. }
    assert (Hn0 : 0 <= n) by (apply Z.div_pos; lia).
    assert (Hnm : n <= Zpos m).
    { destruct (Z.le_gt_cases n (Zpos m)) as [H|H]; [exact H|]. exfalso.
      assert (2 ^ k * (Zpos m + 1) <= 2 ^ k * n)
        by (apply Z.mul_le_mono_nonneg_l; lia).
      nia. }
    split; [|right; repeat split; try lia; reflexivity].
    assert (He' : e = - k) by (unfold k; lia).
    assert (Hinv : (pow2 e * inject_Z (2 ^ k) == 1)%Q).
    { rewrite <- pow2_inject, <- pow2_add, He' by lia.
      replace (- k + k) with 0 by lia. reflexivity. }
    assert (Hhalf : (pow2 e * inject_Z (2 ^ (k - 1)) == 1 # 2)%Q).
    { rewrite Hdouble, inject_Z_mult in Hinv.
      change (inject_Z 2) with 2%Q in Hinv. lra. }
    pose proof (pow2_pos e) as HP. destruct Hn as [Hlo Hhi].
    rewrite Zle_Qle, inject_Z_mult, inject_Z_plus in Hlo.
    rewrite Zlt_Qlt, inject_Z_mult, !inject_Z_plus in Hhi.
    change (inject_Z 1) with 1%Q in Hhi.
    apply (Qmult_le_compat_r _ _ (pow2 e)) in Hlo; [|lra].
    apply (Qmult_lt_compat_r _ _ (pow2 e)) in Hhi; [|lra].
    unfold half_up, F2Q.
    set (a := inject_Z (2 ^ k)) in *. set (b := inject_Z (2 ^ (k - 1))) in *.
    set (P := pow2 e) in *. set (N := inject_Z n) in *.
    set (M := inject_Z (Zpos m)) in *.
    assert (E1 : (a * N * P == N * (P * a))%Q) by ring.
    assert (E2 : ((M + b) * P == M * P + P * b)%Q) by ring.
    assert (E3 : (a * (N + 1) * P == (N + 1) * (P * a))%Q) by ring.
    rewrite E1, E2 in Hlo. rewrite E2, E3 in Hhi.
    rewrite Hinv, Hhalf in Hlo, Hhi. lra.
Qed.

(** [Math.round] of a positive finite number is the rounding of an
    integer that is the value rounded half up. *)
Lemma Math_round_rounds_to (m : positive) (e : Z) :
  bounded JS.prec JS.emax m e = true ->
  exists r,
    half_up (F2Q (Zpos m) e) r
    /\ rounds_to (inject_Z r) (JS.Math_round (S754_finite false m e)).
Proof.
  intros Hb. destruct (Math_round_cases m e) as (r & Hr & Hcases).
  exists r. split; [exact Hr|].
  destruct Hcases as [(He & -> & ->)|(He & Hrange & ->)].
  - apply (rounds_to_compat (F2Q (Zpos m) e)).
    + unfold F2Q. rewrite inject_Z_mult, <- pow2_inject by exact He.
      reflexivity.
    + apply bounded_rounds_to. exact Hb.
  - destruct (Z.eqb_spec r 0) as [->|Hr0].
    + apply zero_rounds_to. reflexivity.
    + destruct r as [|p|p]; try lia. cbn [binary_normalize].
      apply (rounds_to_compat (F2Q (Zpos p) 0)).
      { unfold F2Q. change (pow2 0) with 1%Q. ring. }
      apply binary_round_rounds_to.
Qed.

(** ** Monotone operations on the domain *)

Lemma monotone_compose (f g : JS.number -> JS.number) :
  monotone f -> monotone g -> monotone (fun x => g (f x)).
Proof.
  intros Hf Hg x x' Hx Hx' Hle.
  destruct (Hf x x' Hx Hx' Hle) as (Hfx & Hfx' & Hfle).
  exact (Hg _ _ Hfx Hfx' Hfle).
Qed.

(** An operation that keeps zeros and +infinity and that, on a positive
    finite number, rounds a monotone function of its value. *)
Lemma monotone_of_rounding (f : JS.number -> JS.number)
  (G : Q -> Q -> Prop) :
  (forall s, exists s', f (S754_zero s) = S754_zero s') ->
  f (S754_infinity false) = S754_infinity false ->
  (forall v v' w w', G v w -> G v' w' -> (v <= v')%Q -> (w <= w')%Q) ->
  (forall m e, bounded JS.prec JS.emax m e = true ->
     exists w, G (F2Q (Zpos m) e) w /\ rounds_to w (f (S754_finite false m e))) ->
  monotone f.
Proof.
  intros Hzero Hinf HG Hfin.
  assert (Hdom : forall x, nonneg x -> nonneg (f x)).
  { intros [s|s| |s m e]; cbn [nonneg].
    - intros _. destruct (Hzero s) as [s' ->]. exact I.
    - intros ->. rewrite Hinf. reflexivity.
    - intros [].
    - intros [-> Hb]. destruct (Hfin m e Hb) as (w & _ & Hw).
      exact (rounds_to_nonneg _ _ Hw). }
  intros x x' Hx Hx' Hle.
  split; [exact (Hdom x Hx)|]. split; [exact (Hdom x' Hx')|].
  destruct x as [s|s| |s m e]; cbn [nonneg] in Hx; try contradiction.
  - destruct (Hzero s) as [s' ->]. apply SFleb_zero_l. exact (Hdom x' Hx').
  - subst s. destruct x' as [s'|s'| |s' m' e']; cbn [nonneg] in Hx';
      try contradiction; try discriminate Hle.
    subst s'. rewrite Hinf. reflexivity.
  - destruct Hx as [-> Hb].
    destruct x' as [s'|s'| |s' m' e']; cbn [nonneg] in Hx';
      try contradiction; try discriminate Hle.
    + subst s'. rewrite Hinf. apply SFleb_infinity_r.
      exact (Hdom (S754_finite false m e) (conj eq_refl Hb)).
    + destruct Hx' as [-> Hb'].
      destruct (Hfin m e Hb) as (w & Hw & Hr).
      destruct (Hfin m' e' Hb') as (w' & Hw' & Hr').
      apply (rounds_to_mono w w'); try assumption.
      apply (HG _ _ _ _ Hw Hw'). apply SFleb_B2Q; assumption.
Qed.

Lemma div_monotone (mc : positive) (ec : Z) :
  monotone (fun x => JS.div x (S754_finite false mc ec)).
Proof.
  apply (monotone_of_rounding _
           (fun v w => (w == v / F2Q (Zpos mc) ec)%Q)).
  - intros s. exists (xorb s false). reflexivity.
  - reflexivity.
  - intros v v' w w' -> -> Hle. pose proof (F2Q_pos mc ec) as Hc.
    unfold Qdiv. apply Qmult_le_compat_r; [exact Hle|].
    apply Qlt_le_weak, Qinv_lt_0_compat, Hc.
  - intros m e _. exists (F2Q (Zpos m) e / F2Q (Zpos mc) ec)%Q.
    split; [reflexivity | apply div_rounds_to].
Qed.

Lemma mul_monotone (mc : positive) (ec : Z) :
  bounded JS.prec JS.emax mc ec = true ->
  monotone (fun x => JS.mul x (S754_finite false mc ec)).
Proof.
  intros Hc.
  apply (monotone_of_rounding _
           (fun v w => (w == v * F2Q (Zpos mc) ec)%Q)).
  - intros s. exists (xorb s false). reflexivity.
  - reflexivity.
  - intros v v' w w' -> -> Hle. pose proof (F2Q_pos mc ec).
    apply Qmult_le_compat_r; [exact Hle | lra].
  - intros m e Hb. exists (F2Q (Zpos m) e * F2Q (Zpos mc) ec)%Q.
    split; [reflexivity | apply mul_rounds_to; assumption].
Qed.

Lemma Math_round_monotone : monotone JS.Math_round.
Proof.
  apply (monotone_of_rounding _
           (fun v w => exists r, half_up v r /\ w = inject_Z r)).
  - intros s. exists s. reflexivity.
  - reflexivity.
  - intros v v' w w' (r & Hr & ->) (r' & Hr' & ->) Hle.
    rewrite <- Zle_Qle. exact (half_up_mono _ _ _ _ Hr Hr' Hle).
  - intros m e Hb. destruct (Math_round_rounds_to m e Hb) as (r & Hr & Hx).
    exists (inject_Z r). split; [|exact Hx]. exists r. auto.
Qed.

Lemma convertToMbps_monotone : monotone convertToMbps.
Proof.
  unfold convertToMbps.
  change (JS.of_Z 1000000) with (S754_finite false 8589934592000000 (-33)).
  change (JS.of_Z 100) with (S754_finite false 7036874417766400 (-46)).
  apply (monotone_compose
           (fun x => JS.Math_round
                       (JS.mul
                          (JS.div x (S754_finite false 8589934592000000 (-33)))
                          (S754_finite false 7036874417766400 (-46))))
           (fun y => JS.div y (S754_finite false 7036874417766400 (-46))));
    [|apply div_monotone].
  apply (monotone_compose
           (fun x => JS.mul
                       (JS.div x (S754_finite false 8589934592000000 (-33)))
                       (S754_finite false 7036874417766400 (-46)))
           JS.Math_round); [|apply Math_round_monotone].
  apply (monotone_compose
           (fun x => JS.div x (S754_finite false 8589934592000000 (-33)))
           (fun y => JS.mul y (S754_finite false 7036874417766400 (-46))));
    [apply div_monotone | apply mul_monotone; reflexivity].
Qed.

(** ** Unit conversion *)

Lemma finite_nonneg_nonneg (v : JS.number) : finite_nonneg v -> nonneg v.
Proof.
  intros (Hvalid & Hfin & Hpos).
  destruct v as [s|s| |[] m e]; cbn in *; try discriminate; auto.
Qed.

Lemma leb_MAX_VALUE (v : JS.number) :
  finite_nonneg v -> JS.leb v MAX_VALUE = true.
Proof.
  intros (Hvalid & Hfin & Hpos).
  destruct v as [s|s| |[] m e]; cbn in Hfin, Hpos; try discriminate.
  - reflexivity.
  - cbn [valid_binary] in Hvalid. apply bounded_iff in Hvalid.
    unfold JS.leb, MAX_VALUE. apply SFleb_finite.
    change (Zpos (2 ^ 53 - 1)) with (2 ^ 53 - 1). lia.
Qed.

Lemma rounds_to_zero (q : Q) (x : JS.number) :
  (q == 0)%Q -> rounds_to q x -> x = S754_zero false.
Proof.
  intros Hq (m & e & l & (Hin & Hm & He & Hn) & ->).
  destruct (inbetween_bounds _ _ _ _ Hin) as [Hlo Hhi].
  assert (Hm0 : m = 0).
  { assert (Hlt : (F2Q m e < F2Q 1 e)%Q).
    { rewrite F2Q_one. pose proof (pow2_pos e). lra. }
    apply F2Q_lt_inv in Hlt. lia. }
  subst m. pose proof (pow2_pos e) as HP.
  pose proof (F2Q_zero e) as Hz. pose proof (F2Q_one e) as Ho.
  assert (Hl : round_nearest_even 0 l = 0).
  { destruct l as [|[]]; cbn [round_nearest_even Z.even]; try reflexivity;
      exfalso; unfold inbetween in Hin; cbn [Z.add] in Hin; lra. }
  rewrite Hl, finish_cases by lia. reflexivity.
Qed.

Lemma rounds_to_SFabs (q : Q) (x : JS.number) : rounds_to q x -> SFabs x = x.
Proof.
  intros (m & e & l & (Hin & Hm & He & Hn) & ->).
  pose proof (round_nearest_even_range m l).
  rewrite finish_cases by lia.
  repeat match goal with
         | |- context [if ?b then _ else _] => destruct b
         end; reflexivity.
Qed.

(** A mantissa that is already at the exponent of the format is kept. *)
Lemma binary_round_aux_exact (m : positive) (e : Z) :
  bounded JS.prec JS.emax m e = true ->
  binary_round_aux JS.prec JS.emax false (Zpos m) e loc_Exact
  = S754_finite false m e.
Proof.
  intros Hb. pose proof Hb as Hb'. apply bounded_iff in Hb'.
  destruct Hb' as (Hm & He & Hn).
  assert (Hc : fexp64 (Zdigits2 (Zpos m) + e) = e).
  { unfold bounded, canonical_mantissa in Hb.
    apply andb_true_iff in Hb. destruct Hb as [Hc _].
    apply Z.eqb_eq in Hc. exact Hc. }
  unfold binary_round_aux, shr_fexp. unfold fexp64 in Hc. rewrite Hc.
  rewrite Z.sub_diag. cbn [shr shr_record_of_loc shr_m loc_of_shr_record
                           round_nearest_even].
  rewrite Hc, Z.sub_diag. cbn [shr shr_m].
  change (JS.emax - JS.prec) with 971.
  destruct (Z.leb_spec e 971); [reflexivity | lia].
Qed.

(** An integer below 2^53 is a binary64 number: the literal denotes it
    exactly. *)
Lemma binary_round_integer (p : positive) :
  Zpos p < 2 ^ 53 ->
  exists mc ec,
    binary_round JS.prec JS.emax false p 0 = S754_finite false mc ec
    /\ bounded JS.prec JS.emax mc ec = true
    /\ (F2Q (Zpos mc) ec == inject_Z (Zpos p))%Q.
Proof.
  intros Hp. unfold binary_round, shl_align.
  fold (fexp64 (Zpos (digits2_pos p) + 0)).
  pose proof (digits2_pos_bounds p) as [Hlo Hhi].
  set (d := Zpos (digits2_pos p)) in *.
  assert (Hd : 0 < d) by (unfold d; lia).
  assert (Hd53 : d <= 53).
  { destruct (Z.le_gt_cases d 53) as [H|H]; [exact H|].
    assert (2 ^ 53 <= 2 ^ (d - 1)) by (apply Z.pow_le_mono_r; lia). lia. }
  rewrite fexp64_eq.
  assert (Hv : (F2Q (Zpos p) 0 == inject_Z (Zpos p))%Q).
  { unfold F2Q. change (pow2 0) with 1%Q. ring. }
  destruct (Z.max (d + 0 - 53) (-1074) - 0) as [|k|k] eqn:Hk; try lia.
  - assert (Hb : bounded JS.prec JS.emax p 0 = true).
    { apply bounded_iff. assert (d = 53) by lia.
      subst d. rewrite H in Hlo. change (53 - 1) with 52 in Hlo. lia. }
    exists p, 0. rewrite (binary_round_aux_exact p 0 Hb). auto.
  - fold (shift_pos k p).
    assert (Hsh : Zpos (shift_pos k p) = Zpos p * 2 ^ Zpos k).
    { rewrite shift_pos_correct. change (Z.pow_pos 2 k) with (2 ^ Zpos k). lia. }
    assert (Hk' : Zpos k = 53 - d) by lia.
    assert (Hpk : 0 < 2 ^ Zpos k) by (apply Z.pow_pos_nonneg; lia).
    assert (Hrange : 2 ^ 52 <= Zpos (shift_pos k p) < 2 ^ 53).
    { rewrite Hsh.
      replace (2 ^ 52) with (2 ^ (d - 1) * 2 ^ Zpos k)
        by (rewrite <- Z.pow_add_r by lia; f_equal; lia).
      replace (2 ^ 53) with (2 ^ d * 2 ^ Zpos k)
        by (rewrite <- Z.pow_add_r by lia; f_equal; lia).
      nia. }
    replace (Z.max (d + 0 - 53) (-1074)) with (d - 53) by lia.
    assert (Hb : bounded JS.prec JS.emax (shift_pos k p) (d - 53) = true)
      by (apply bounded_iff; lia).
    exists (shift_pos k p), (d - 53).
    rewrite (binary_round_aux_exact _ _ Hb). split; [reflexivity|].
    split; [exact Hb|].
    rewrite Hsh, F2Q_shift by lia.
    replace (d - 53 + Zpos k) with 0 by lia. exact Hv.
Qed.

(** [Math.round] of a positive finite number is an integer: the value
    rounded half up. *)
Lemma Math_round_exact (m : positive) (e : Z) :
  bounded JS.prec JS.emax m e = true ->
  exists r,
    half_up (F2Q (Zpos m) e) r
    /\ (B2Q (JS.Math_round (S754_finite false m e)) == inject_Z r)%Q
    /\ finite_nonneg (JS.Math_round (S754_finite false m e)).
Proof.
  intros Hb. destruct (Math_round_cases m e) as (r & Hr & Hcases).
  exists r. split; [exact Hr|].
  destruct Hcases as [(He & -> & ->)|(He & Hrange & ->)].
  - split.
    + cbn [B2Q cond_Zopp]. unfold F2Q.
      rewrite inject_Z_mult, <- pow2_inject by exact He. reflexivity.
    + repeat split. exact Hb.
  - destruct (Z.eqb_spec r 0) as [->|Hr0].
    + split; [reflexivity | repeat split].
    + apply bounded_iff in Hb. destruct Hb as (Hm & _).
      destruct r as [|p|p]; try lia. cbn [binary_normalize].
      destruct (binary_round_integer p ltac:(lia)) as (mc & ec & -> & Hbc & Hv).
      split; [exact Hv | repeat split; exact Hbc].
Qed.

Lemma finite_nonneg_cases (v : JS.number) :
  finite_nonneg v ->
  (exists s, v = S754_zero s)
  \/ (exists m e, v = S754_finite false m e
                  /\ bounded JS.prec JS.emax m e = true).
Proof.
  intros (Hvalid & Hfin & Hpos).
  destruct v as [s|s| |[] m e]; cbn in *; try discriminate; eauto.
Qed.

(** A monotone operation that is finite at [Number.MAX_VALUE] is finite on
    all finite non-negative numbers. *)
Lemma monotone_finite (f : JS.number -> JS.number) :
  monotone f -> JS.is_finite (f MAX_VALUE) = true ->
  forall v, finite_nonneg v -> finite_nonneg (f v).
Proof.
  intros Hf Hmax v Hv.
  destruct (Hf v MAX_VALUE (finite_nonneg_nonneg v Hv)
              (conj eq_refl eq_refl) (leb_MAX_VALUE v Hv))
    as (Hdom & Hdom' & Hle).
  unfold finite_nonneg.
  destruct (f v) as [s|s| |s m e]; cbn [nonneg] in Hdom.
  - repeat split.
  - subst s. destruct (f MAX_VALUE) as [s'|s'| |[] m' e'];
      cbn in Hmax, Hle, Hdom'; try discriminate; intuition discriminate.
  - contradiction.
  - destruct Hdom as [-> Hb]. repeat split. exact Hb.
Qed.

(** Division and multiplication by a positive constant round the exact
    quotient and product, also at zero. *)
Lemma div_exact (v : JS.number) (mc : positive) (ec : Z) :
  finite_nonneg v ->
  rounds_to (B2Q v / F2Q (Zpos mc) ec)
    (SFabs (JS.div v (S754_finite false mc ec))).
Proof.
  intros Hv. destruct (finite_nonneg_cases v Hv) as [[s ->]|(m & e & -> & Hb)].
  - cbn. apply zero_rounds_to. unfold Qdiv. ring.
  - pose proof (div_rounds_to m mc e ec) as H.
    rewrite (rounds_to_SFabs _ _ H). exact H.
Qed.

Lemma mul_exact (v : JS.number) (mc : positive) (ec : Z) :
  bounded JS.prec JS.emax mc ec = true ->
  finite_nonneg v ->
  rounds_to (B2Q v * F2Q (Zpos mc) ec)
    (SFabs (JS.mul v (S754_finite false mc ec))).
Proof.
  intros Hc Hv.
  destruct (finite_nonneg_cases v Hv) as [[s ->]|(m & e & -> & Hb)].
  - cbn. apply zero_rounds_to. ring.
  - pose proof (mul_rounds_to m mc e ec Hb Hc) as H.
    rewrite (rounds_to_SFabs _ _ H). exact H.
Qed.

Lemma Math_round_exact_nonneg (v : JS.number) :
  finite_nonneg v ->
  exists r,
    half_up (B2Q v) r
    /\ (B2Q (JS.Math_round v) == inject_Z r)%Q
    /\ finite_nonneg (JS.Math_round v).
Proof.
  intros Hv. destruct (finite_nonneg_cases v Hv) as [[s ->]|(m & e & -> & Hb)].
  - exists 0. cbn [JS.Math_round B2Q]. split; [|split; [reflexivity|exact Hv]].
    unfold half_up, Qle, Qlt. cbn. lia.
  - exact (Math_round_exact m e Hb).
Qed.

Lemma F2Q_1000000 : (F2Q 8589934592000000 (-33) == 1000000)%Q.
Proof. reflexivity. Qed.

Lemma F2Q_100 : (F2Q 7036874417766400 (-46) == 100)%Q.
Proof. reflexivity. Qed.

(** The conversion step by step, in exact arithmetic: each operation of
    the expression rounds the exact result to binary64, and [Math.round]
    gives the integer nearest to its argument, ties upwards. *)
Lemma convertToMbps_steps (v : JS.number) :
  finite_nonneg v ->
  let a := JS.div v (JS.of_Z 1000000) in
  let b := JS.mul a (JS.of_Z 100) in
  let c := JS.Math_round b in
  rounds_to (B2Q v / 1000000) (SFabs a)
  /\ rounds_to (B2Q a * 100) (SFabs b)
  /\ (exists r, half_up (B2Q b) r /\ (B2Q c == inject_Z r)%Q)
  /\ rounds_to (B2Q c / 100) (SFabs (convertToMbps v)).
Proof.
  intros Hv a b c.
  assert (Ha : finite_nonneg a).
  { apply (monotone_finite (fun x => JS.div x (JS.of_Z 1000000)));
      [apply (div_monotone 8589934592000000 (-33)) | reflexivity | exact Hv]. }
  assert (Hb : finite_nonneg b).
  { apply (monotone_finite
             (fun x => JS.mul (JS.div x (JS.of_Z 1000000)) (JS.of_Z 100)));
      [|reflexivity | exact Hv].
    apply (monotone_compose
             (fun x => JS.div x (S754_finite false 8589934592000000 (-33)))
             (fun y => JS.mul y (S754_finite false 7036874417766400 (-46))));
      [apply div_monotone | apply mul_monotone; reflexivity]. }
  destruct (Math_round_exact_nonneg b Hb) as (r & Hr & Hc & Hcfin).
  split; [|split; [|split]].
  - apply (rounds_to_compat (B2Q v / F2Q 8589934592000000 (-33))).
    + rewrite F2Q_1000000. reflexivity.
    + exact (div_exact v 8589934592000000 (-33) Hv).
  - apply (rounds_to_compat (B2Q a * F2Q 7036874417766400 (-46))).
    + rewrite F2Q_100. reflexivity.
    + exact (mul_exact a 7036874417766400 (-46) eq_refl Ha).
  - exists r. auto.
  - apply (rounds_to_compat (B2Q c / F2Q 7036874417766400 (-46))).
    + rewrite F2Q_100. reflexivity.
    + exact (div_exact c 7036874417766400 (-46) Hcfin).
Qed.

Lemma convertToMbps_finite_nonneg (v : JS.number) :
  finite_nonneg v -> finite_nonneg (convertToMbps v).
Proof.
  apply (monotone_finite convertToMbps convertToMbps_monotone). reflexivity.
Qed.

(** C6.  On every finite non-negative number the conversion is the
    expression of the specification, [round(v / 1_000_000 * 100) / 100]:
    the division by a million and the multiplication by a hundred each
    give the exact result rounded to binary64, [round] gives the integer
    nearest to the scaled value (ties upwards), and the result is that
    integer divided by a hundred, rounded to binary64.  No input is treated
    apart: the result is a finite non-negative number for zero and for the
    largest number as for the others. *)
Theorem convertToMbps_formula (v : JS.number) :
  finite_nonneg v ->
  convertToMbps v = bitsPerSecondToMbps_spec v
  /\ (let a := JS.div v (JS.of_Z 1000000) in
      let b := JS.mul a (JS.of_Z 100) in
      let c := JS.Math_round b in
      rounds_to (B2Q v / 1000000) (SFabs a)
      /\ rounds_to (B2Q a * 100) (SFabs b)
      /\ (exists r, half_up (B2Q b) r /\ (B2Q c == inject_Z r)%Q)
      /\ rounds_to (B2Q c / 100) (SFabs (convertToMbps v)))
  /\ finite_nonneg (convertToMbps v).
Proof.
  intros Hv. split; [reflexivity|]. split.
  - exact (convertToMbps_steps v Hv).
  - exact (convertToMbps_finite_nonneg v Hv).
Qed.

Lemma convertToMbps_formula_witness :
  convertToMbps (JS.of_Z 94300000) = bitsPerSecondToMbps_spec (JS.of_Z 94300000)
  /\ finite_nonneg (convertToMbps (JS.of_Z 94300000)).
Proof.
  assert (Hv : finite_nonneg (JS.of_Z 94300000))
    by (repeat split; vm_compute; reflexivity).
  split.
  - exact (proj1 (convertToMbps_formula (JS.of_Z 94300000) Hv)).
  - exact (proj2 (proj2 (convertToMbps_formula (JS.of_Z 94300000) Hv))).
Defined.

(** C7.  The conversion is monotone non-decreasing on finite non-negative
    numbers. *)
Theorem convertToMbps_monotonic (v1 v2 : JS.number) :
  finite_nonneg v1 -> finite_nonneg v2 ->
  JS.leb v1 v2 = true ->
  JS.leb (convertToMbps v1) (convertToMbps v2) = true.
Proof.
  intros H1 H2 Hle.
  exact (proj2 (proj2 (convertToMbps_monotone v1 v2
                         (finite_nonneg_nonneg v1 H1)
                         (finite_nonneg_nonneg v2 H2) Hle))).
Qed.

Lemma convertToMbps_monotonic_witness :
  JS.leb (convertToMbps (JS.of_Z 1004999)) (convertToMbps (JS.of_Z 94300000))
  = true.
Proof.
  apply (convertToMbps_monotonic (JS.of_Z 1004999) (JS.of_Z 94300000)).
  - repeat split; vm_compute; reflexivity.
  - repeat split; vm_compute; reflexivity.
  - vm_compute; reflexivity.
Defined.

(** Values of the conversion: 94.3 Mbit/s, zero, and the two-decimal
    rounding as binary64 arithmetic performs it (1005000 bit/s gives 1,
    not 1.01, because 1.005 * 100 is 100.49999999999999). *)
Example convertToMbps_values :
  convertToMbps (JS.of_Z 94300000) = JS.div (JS.of_Z 943) (JS.of_Z 10)
  /\ convertToMbps (JS.of_Z 0) = JS.of_Z 0
  /\ convertToMbps (JS.of_Z 5000) = JS.div (JS.of_Z 1) (JS.of_Z 100)
  /\ convertToMbps (JS.of_Z 1005000) = JS.of_Z 1.
Proof.
  repeat split; vm_compute; reflexivity.
Qed.

(** * Further properties of the component *)

(** * Further properties *)

(** ** The handlers, whatever the selection *)

Lemma mapM_row_id_at_cases (fd : list Flat.t) (keys : list string) :
  mapM (row_id_at fd) keys = ([], Throw TypeError)
  \/ exists rows,
       selects fd keys rows
       /\ mapM (row_id_at fd) keys = ([], Normal (map Flat.id rows)).
Proof.
  induction keys as [|k keys IH].
  - right. exists []. split; [constructor | reflexivity].
  - cbn [mapM]. unfold row_id_at at 1 3.
    destruct (JS.array_get fd (JS.parseInt k)) as [r|] eqn:Hget;
      [|left; reflexivity].
    destruct IH as [IH|(rows & Hsel & IH)]; rewrite IH.
    + left. reflexivity.
    + right. exists (r :: rows). split; [|reflexivity].
      constructor; assumption.
Qed.

Lemma selects_In (fd : list Flat.t) (keys : list string) (rows : list Flat.t) :
  selects fd keys rows -> forall r, In r rows -> In r fd.
Proof.
  unfold selects. induction 1 as [|k r' keys rows Hget _ IH]; intros r Hin.
  - contradiction.
  - destruct Hin as [<-|Hin]; [|exact (IH r Hin)].
    apply array_get_Some in Hget. destruct Hget as (n & _ & _ & Hnth).
    eapply nth_error_In. exact Hnth.
Qed.

(** X1.  [handleDelete] is all or nothing, whatever the selection and the
    rows: either it throws before any call, or it makes exactly one call,
    [onDelete], with one identifier per selection key, each the identifier
    of a row of the table. *)
Theorem handleDelete_all_or_nothing (sel : RowSelection) (fd : list Flat.t) :
  handleDelete sel fd = ([], Throw TypeError)
  \/ exists ids,
       handleDelete sel fd = ([OnDelete ids], Normal tt)
       /\ length ids = length (JS.Object_keys sel)
       /\ forall id, In id ids -> In id (map Flat.id fd).
Proof.
  unfold handleDelete.
  destruct (mapM_row_id_at_cases fd (JS.Object_keys sel))
    as [Hthrow|(rows & Hsel & Hok)].
  - left. rewrite Hthrow. reflexivity.
  - right. exists (map Flat.id rows). rewrite Hok. split; [reflexivity|].
    split.
    + rewrite length_map. exact (selects_length _ _ _ Hsel).
    + intros id Hin. apply in_map_iff in Hin. destruct Hin as (r & <- & Hr).
      apply in_map. exact (selects_In _ _ _ Hsel r Hr).
Qed.

(** X2.  [toggleDisableSelected] is all or nothing and agrees with
    [handleDelete] on the identifiers: either both throw before any call,
    or [handleDelete] passes a list [ids] to [onDelete] and the toggle calls
    [updateDatapoint] once for each element of [ids], in that order, every
    call with the same patch. *)
Theorem toggleDisableSelected_all_or_nothing (sel : RowSelection)
  (fd : list Flat.t) :
  (handleDelete sel fd = ([], Throw TypeError)
   /\ toggleDisableSelected sel fd = ([], Throw TypeError))
  \/ exists ids target,
       handleDelete sel fd = ([OnDelete ids], Normal tt)
       /\ toggleDisableSelected sel fd
          = (map (fun id => UpdateDatapoint id (mkPatch target)) ids,
             Normal tt).
Proof.
  unfold handleDelete, toggleDisableSelected.
  destruct (mapM_row_id_at_cases fd (JS.Object_keys sel))
    as [Hthrow|(rows & Hsel & Hok)].
  - left. rewrite Hthrow. split; reflexivity.
  - right. rewrite Hok. cbn [bind]. rewrite forEach_call.
    eexists. eexists. split; reflexivity.
Qed.

(** ** Selection keys *)

Lemma parse_digits_decimal (d : Decimal.uint) (a : nat) :
  JS.parse_digits 10 (NilEmpty.string_of_uint d) (Some (Z.of_nat a))
  = Some (Z.of_nat (Nat.of_uint_acc d a)).
Proof.
  revert a. induction d; intros a;
    cbn [NilEmpty.string_of_uint JS.parse_digits Nat.of_uint_acc];
    try reflexivity;
    match goal with
    | |- context [JS.digit_value ?c] =>
        let v := eval vm_compute in (JS.digit_value c) in
        change (JS.digit_value c) with v
    end;
    cbn [Z.ltb Z.compare Pos.compare Pos.compare_cont];
    rewrite <- IHd; do 2 f_equal; rewrite Nat.tail_mul_spec; lia.
Qed.

Lemma parse_digits_first (d : Decimal.uint) :
  d <> Decimal.Nil ->
  JS.parse_digits 10 (NilEmpty.string_of_uint d) None
  = JS.parse_digits 10 (NilEmpty.string_of_uint d) (Some 0).
Proof.
  destruct d; intros Hd; try congruence; reflexivity.
Qed.

Lemma parseInt_decimal (d : Decimal.uint) :
  d <> Decimal.Nil ->
  JS.parseInt (NilEmpty.string_of_uint d) = Some (Z.of_nat (Nat.of_uint d)).
Proof.
  intros Hd.
  assert (Hdigits : JS.parse_digits 10 (NilEmpty.string_of_uint d) None
                    = Some (Z.of_nat (Nat.of_uint d))).
  { rewrite (parse_digits_first d Hd). exact (parse_digits_decimal d 0). }
  assert (Hmul : forall z, 1 * z = z) by (intros; lia).
  unfold JS.parseInt.
  destruct d as [|d|d|d|d|d|d|d|d|d|d]; try congruence;
    try (cbn [NilEmpty.string_of_uint JS.trim_start] in *;
         match goal with
         | |- context [JS.is_white_space ?c] =>
             change (JS.is_white_space c) with false
         end; cbv iota;
         rewrite Hdigits; cbn [option_map]; rewrite Hmul; reflexivity).
  destruct d; cbn [NilEmpty.string_of_uint JS.trim_start] in *;
    change (JS.is_white_space "0") with false; cbv iota;
    rewrite Hdigits; cbn [option_map]; rewrite Hmul; reflexivity.
Qed.

Lemma to_uint_not_Nil (i : nat) : Nat.to_uint i <> Decimal.Nil.
Proof.
  intros H. pose proof (Unsigned.of_to i) as Hi. rewrite H in Hi. cbn in Hi.
  subst i. discriminate H.
Qed.

Lemma parseInt_index_key (i : nat) :
  JS.parseInt (index_key i) = Some (Z.of_nat i).
Proof.
  unfold index_key. rewrite (parseInt_decimal _ (to_uint_not_Nil i)).
  rewrite Unsigned.of_to. reflexivity.
Qed.

Lemma array_get_index_key (fd : list Flat.t) (i : nat) :
  JS.array_get fd (JS.parseInt (index_key i)) = nth_error fd i.
Proof.
  rewrite parseInt_index_key. unfold JS.array_get.
  destruct (Z.ltb_spec (Z.of_nat i) 0); [lia|]. rewrite Nat2Z.id.
  reflexivity.
Qed.

(** X3.  The key the table writes for the row at position [i] reads back
    that row: indexing the rows with [parseInt] of the decimal numeral of
    [i] gives the row at position [i], and no row when [i] is past the
    end. *)
Theorem index_key_reads_row (fd : list Flat.t) (i : nat) :
  JS.parseInt (index_key i) = Some (Z.of_nat i)
  /\ JS.array_get fd (JS.parseInt (index_key i)) = nth_error fd i
  /\ row_id_at fd (index_key i)
     = match nth_error fd i with
       | Some row => ([], Normal (Flat.id row))
       | None => ([], Throw TypeError)
       end.
Proof.
  split; [apply parseInt_index_key|].
  split; [apply array_get_index_key|].
  unfold row_id_at. rewrite array_get_index_key.
  destruct (nth_error fd i); reflexivity.
Qed.

Lemma select_position_In (i j : nat) (ps : list nat) :
  In j (select_position i ps) <-> j = i \/ In j ps.
Proof.
  induction ps as [|k ps IH]; cbn [select_position In];
    [intuition congruence|].
  destruct (Nat.ltb_spec i k) as [Hlt|Hge]; cbn [In]; [intuition congruence|].
  destruct (Nat.eqb_spec i k) as [->|Hne]; cbn [In]; [intuition congruence|].
  rewrite IH. intuition congruence.
Qed.

Lemma select_position_sorted (i : nat) (ps : list nat) :
  StronglySorted lt ps -> StronglySorted lt (select_position i ps).
Proof.
  induction 1 as [|k ps Hsorted IH Hk]; cbn [select_position].
  - repeat constructor.
  - destruct (Nat.ltb_spec i k) as [Hlt|Hge].
    + constructor; [constructor; assumption|].
      constructor; [exact Hlt|].
      apply List.Forall_forall. intros j Hj.
      pose proof (proj1 (List.Forall_forall _ _) Hk j Hj). lia.
    + destruct (Nat.eqb_spec i k) as [->|Hne]; [constructor; assumption|].
      constructor; [exact IH|].
      apply List.Forall_forall. intros j Hj.
      apply select_position_In in Hj. destruct Hj as [->|Hj]; [lia|].
      exact (proj1 (List.Forall_forall _ _) Hk j Hj).
Qed.

Lemma select_position_last (i : nat) (ps : list nat) :
  List.Forall (fun j => (j < i)%nat) ps -> select_position i ps = ps ++ [i].
Proof.
  induction 1 as [|k ps Hk _ IH]; cbn [select_position app]; [reflexivity|].
  destruct (Nat.ltb_spec i k) as [Hlt|Hge]; [lia|].
  destruct (Nat.eqb_spec i k) as [->|Hne]; [lia|]. rewrite IH. reflexivity.
Qed.

Lemma fold_select_position_sorted (clicks ps : list nat) :
  StronglySorted lt ps ->
  StronglySorted lt (fold_left (fun ps i => select_position i ps) clicks ps).
Proof.
  revert ps. induction clicks as [|i clicks IH]; intros ps Hps; [exact Hps|].
  cbn [fold_left]. apply IH, select_position_sorted, Hps.
Qed.

Lemma fold_select_position_In (clicks ps : list nat) (j : nat) :
  In j (fold_left (fun ps i => select_position i ps) clicks ps)
  <-> In j clicks \/ In j ps.
Proof.
  revert ps. induction clicks as [|i clicks IH]; intros ps; cbn [fold_left In].
  - tauto.
  - rewrite IH, select_position_In. intuition congruence.
Qed.

Lemma fold_select_position_ascending (clicks ps : list nat) :
  StronglySorted lt (ps ++ clicks) ->
  fold_left (fun ps i => select_position i ps) clicks ps = ps ++ clicks.
Proof.
  revert ps. induction clicks as [|i clicks IH]; intros ps Hsorted.
  - cbn. rewrite app_nil_r. reflexivity.
  - cbn [fold_left]. rewrite select_position_last.
    + rewrite IH; rewrite <- app_assoc; [reflexivity | exact Hsorted].
    + clear IH. induction ps as [|k ps IHps]; [constructor|].
      cbn [app] in Hsorted. inversion Hsorted as [|? ? Hrest Hk]; subst.
      constructor; [|exact (IHps Hrest)].
      apply (proj1 (List.Forall_forall _ _) Hk). apply in_or_app.
      right. left. reflexivity.
Qed.

(** The selection object lists the selected positions in ascending order,
    each once, whatever the order of the clicks; clicks in ascending order
    are listed as they were made. *)
Lemma selected_positions_ascending (clicks : list nat) :
  StronglySorted lt (selected_positions clicks)
  /\ (forall i, In i (selected_positions clicks) <-> In i clicks)
  /\ (StronglySorted lt clicks -> selected_positions clicks = clicks).
Proof.
  unfold selected_positions. split; [|split].
  - apply fold_select_position_sorted. constructor.
  - intros i. rewrite fold_select_position_In. cbn [In]. tauto.
  - intros Hsorted. exact (fold_select_position_ascending clicks [] Hsorted).
Qed.

Lemma Object_keys_selection_of (clicks : list nat) :
  JS.Object_keys (selection_of clicks)
  = map index_key (selected_positions clicks).
Proof.
  unfold JS.Object_keys, selection_of. rewrite map_map. reflexivity.
Qed.

Lemma selects_selection_of (fd : list Flat.t) (clicks : list nat)
  (rows : list Flat.t) :
  Forall2 (fun i r => nth_error fd i = Some r) (selected_positions clicks)
    rows ->
  selects fd (JS.Object_keys (selection_of clicks)) rows.
Proof.
  rewrite Object_keys_selection_of. unfold selects.
  induction 1 as [|i r ps rows Hnth _ IH]; cbn [map]; constructor.
  - rewrite array_get_index_key. exact Hnth.
  - exact IH.
Qed.

Section FlattenedSelection.

Variable rssiToPercentage : JS.number -> JS.number.
Variable Number_toString : JS.number -> string.
Variable toLocaleString : string -> string.

Let rows := flattenedData rssiToPercentage Number_toString toLocaleString.
Let row := flatten_point rssiToPercentage Number_toString toLocaleString.

Lemma flattened_positions (data : list SurveyPoint.t)
  (apMapping : list ApMapping.t) (ps : list nat) (points : list SurveyPoint.t) :
  Forall2 (fun i p => nth_error data i = Some p) ps points ->
  Forall2 (fun i r => nth_error (rows data apMapping) i = Some r) ps
    (map (row apMapping) points).
Proof.
  induction 1 as [|i p ps points Hnth _ IH]; cbn [map]; constructor.
  - unfold rows, flattenedData. rewrite nth_error_map, Hnth. reflexivity.
  - exact IH.
Qed.

(** X4.  Deleting through the table deletes the records selected: after
    the rows at the positions [clicks] of the table built from [data]
    (under any mapping) were selected, in any order and possibly more than
    once, with [points] the records of [data] at the selected positions in
    ascending order, each once, [handleDelete] calls [onDelete] once, with
    the identifiers of [points] in that order. *)
Theorem handleDelete_deletes_selected_records (data : list SurveyPoint.t)
  (apMapping : list ApMapping.t) (clicks : list nat)
  (points : list SurveyPoint.t) :
  Forall2 (fun i p => nth_error data i = Some p) (selected_positions clicks)
    points ->
  handleDelete (selection_of clicks) (rows data apMapping)
  = ([OnDelete (map SurveyPoint.id points)], Normal tt).
Proof.
  intros Hps.
  rewrite (handleDelete_run _ _ _
             (selects_selection_of _ _ _
                (flattened_positions data apMapping _ points Hps))).
  rewrite map_map. reflexivity.
Qed.

(** X5.  Toggling through the table acts on the records selected: with
    unique record identifiers, after the rows at the positions [clicks]
    were selected, in any order, and [points] the records at the selected
    positions in ascending order, each once, [toggleDisableSelected] calls
    [updateDatapoint] once per record of [points], in that order, with
    [isDisabled] set to "not every record of [points] is disabled". *)
Theorem toggleDisableSelected_toggles_selected_records
  (data : list SurveyPoint.t) (apMapping : list ApMapping.t)
  (clicks : list nat) (points : list SurveyPoint.t) :
  List.NoDup (map SurveyPoint.id data) ->
  Forall2 (fun i p => nth_error data i = Some p) (selected_positions clicks)
    points ->
  toggleDisableSelected (selection_of clicks) (rows data apMapping)
  = (map (fun p => UpdateDatapoint (SurveyPoint.id p)
                     (mkPatch (negb (forallb SurveyPoint.isDisabled points))))
       points,
     Normal tt).
Proof.
  intros Hnd Hps.
  assert (Hids : List.NoDup (map Flat.id (rows data apMapping))).
  { unfold rows, flattenedData. rewrite map_map. exact Hnd. }
  rewrite (toggleDisableSelected_run _ _ _ Hids
             (selects_selection_of _ _ _
                (flattened_positions data apMapping _ points Hps))).
  rewrite map_map. f_equal. apply map_ext_in. intros p _.
  cbn [row flatten_point Flat.id]. do 3 f_equal.
  clear. induction points as [|p points IH]; [reflexivity|].
  cbn [map forallb]. rewrite IH. reflexivity.
Qed.

End FlattenedSelection.

(** ** Row flattener, for every mapping *)

Section FlattenMore.

Variable rssiToPercentage : JS.number -> JS.number.
Variable Number_toString : JS.number -> string.
Variable toLocaleString : string -> string.

Let rows := flattenedData rssiToPercentage Number_toString toLocaleString.
Let row := flatten_point rssiToPercentage Number_toString toLocaleString.
Let address (point : SurveyPoint.t) : string :=
  WifiData.bssid (SurveyPoint.wifiData point).

(** X6.  The mapping list changes nothing but the label: under every
    mapping the table has one row per record, in the order of the records,
    with the record's identifier and [isDisabled] flag, and each row is the
    row built with the empty mapping with its [bssid] label replaced. *)
Theorem mapping_changes_only_label (data : list SurveyPoint.t)
  (apMapping : list ApMapping.t) :
  length (rows data apMapping) = length data
  /\ map Flat.id (rows data apMapping) = map SurveyPoint.id data
  /\ map Flat.isDisabled (rows data apMapping)
     = map SurveyPoint.isDisabled data
  /\ rows data apMapping
     = map (fun p => with_bssid (resolve_bssid apMapping (address p))
                       (row [] p)) data.
Proof.
  unfold rows, row, address, flattenedData. repeat split.
  - apply length_map.
  - rewrite map_map. reflexivity.
  - rewrite map_map. reflexivity.
Qed.

(** X7.  The label is decided by the first mapping entry for the address
    alone: entries for other addresses before it and any entries after it
    change nothing, and a mapping list without an entry for the address
    labels like the empty list. *)
Theorem label_depends_on_first_match (point : SurveyPoint.t)
  (l1 l2 : list ApMapping.t) (ap : ApMapping.t) :
  (forall a, In a l1 -> ApMapping.macAddress a <> address point) ->
  (ApMapping.macAddress ap = address point ->
   Flat.bssid (row (l1 ++ ap :: l2) point) = Flat.bssid (row [ap] point))
  /\ Flat.bssid (row l1 point) = Flat.bssid (row [] point).
Proof.
  intros Hl1. unfold row, address in *. cbn [flatten_point Flat.bssid]. split.
  - intros Hap. rewrite !resolve_bssid_cases.
    rewrite (find_first_match _ l1 l2 ap _ eq_refl Hl1 Hap).
    rewrite (find_first_match [ap] [] [] ap _ eq_refl
               ltac:(intros a []) Hap).
    reflexivity.
  - rewrite !resolve_bssid_cases, (find_no_match _ _ Hl1). reflexivity.
Qed.

End FlattenMore.

Lemma label_depends_on_first_match_witness :
  Flat.bssid
    (flatten_point Sample.rssiToPercentage Sample.Number_toString
       Sample.toLocaleString
       ([ApMapping.mk "CC:DD" "Attic"]
        ++ ApMapping.mk "AA:BB" "Router1" :: [ApMapping.mk "AA:BB" "Other"])
       (Sample.point "A" "AA:BB" false))
  = Flat.bssid
      (flatten_point Sample.rssiToPercentage Sample.Number_toString
         Sample.toLocaleString [ApMapping.mk "AA:BB" "Router1"]
         (Sample.point "A" "AA:BB" false)).
Proof.
  refine (proj1 (label_depends_on_first_match Sample.rssiToPercentage
                   Sample.Number_toString Sample.toLocaleString
                   (Sample.point "A" "AA:BB" false)
                   [ApMapping.mk "CC:DD" "Attic"]
                   [ApMapping.mk "AA:BB" "Other"]
                   (ApMapping.mk "AA:BB" "Router1") _) eq_refl).
  intros a [<-|[]]. discriminate.
Defined.

Lemma handleDelete_deletes_selected_records_witness :
  handleDelete (selection_of [2%nat; 0%nat; 2%nat])
    (Sample.flatten
       [ Sample.point "A" "AA:BB" false; Sample.point "B" "AA:BB" false;
         Sample.point "C" "CC:DD" true ]
       [ApMapping.mk "AA:BB" "Router1"])
  = ([OnDelete ["A"%string; "C"%string]], Normal tt).
Proof.
  refine (handleDelete_deletes_selected_records Sample.rssiToPercentage
            Sample.Number_toString Sample.toLocaleString
            [ Sample.point "A" "AA:BB" false; Sample.point "B" "AA:BB" false;
              Sample.point "C" "CC:DD" true ]
            [ApMapping.mk "AA:BB" "Router1"] [2%nat; 0%nat; 2%nat]
            [Sample.point "A" "AA:BB" false; Sample.point "C" "CC:DD" true] _).
  repeat constructor.
Defined.

Lemma toggleDisableSelected_toggles_selected_records_witness :
  toggleDisableSelected (selection_of [2%nat; 1%nat])
    (Sample.flatten
       [ Sample.point "A" "AA:BB" false; Sample.point "B" "AA:BB" false;
         Sample.point "C" "CC:DD" true ]
       [ApMapping.mk "AA:BB" "Router1"])
  = ([UpdateDatapoint "B" (mkPatch true); UpdateDatapoint "C" (mkPatch true)],
     Normal tt).
Proof.
  refine (toggleDisableSelected_toggles_selected_records
            Sample.rssiToPercentage Sample.Number_toString
            Sample.toLocaleString
            [ Sample.point "A" "AA:BB" false; Sample.point "B" "AA:BB" false;
              Sample.point "C" "CC:DD" true ]
            [ApMapping.mk "AA:BB" "Router1"] [2%nat; 1%nat]
            [Sample.point "B" "AA:BB" false; Sample.point "C" "CC:DD" true]
            _ _).
  - cbn. repeat constructor; cbn; intuition discriminate.
  - repeat constructor.
Defined.

(** ** The selection counter and the row switch *)

Lemma NoDup_below_length (l : list nat) (n : nat) :
  List.NoDup l -> (forall i, In i l -> (i < n)%nat) -> (length l <= n)%nat.
Proof.
  intros Hnd Hlt. rewrite <- (List.length_seq n 0).
  apply NoDup_incl_length; [exact Hnd|].
  intros i Hi. apply in_seq. specialize (Hlt i Hi). lia.
Qed.

(** X8.  The counter "n of m row(s) selected" never shows more rows
    selected than there are rows, as long as the selection keys are
    distinct positions of rows. *)
Theorem selected_count_at_most_rows (sel : RowSelection) (fd : list Flat.t) :
  keys_in_range fd (JS.Object_keys sel) ->
  List.NoDup (map JS.parseInt (JS.Object_keys sel)) ->
  (length (JS.Object_keys sel) <= length fd)%nat.
Proof.
  intros Hrange Hnd.
  set (keys := JS.Object_keys sel) in *.
  set (pos := fun k => match JS.parseInt k with
                       | Some n => Z.to_nat n
                       | None => 0%nat
                       end).
  rewrite <- (length_map pos keys).
  apply NoDup_below_length.
  - clearbody keys. induction keys as [|k keys IH]; [constructor|].
    cbn [map] in *. apply NoDup_cons_iff in Hnd. destruct Hnd as [Hk Hnd].
    constructor.
    + intros Hin. apply Hk. apply in_map_iff in Hin.
      destruct Hin as (k' & Heq & Hk'). apply in_map_iff. exists k'.
      split; [|exact Hk'].
      destruct (Hrange k (or_introl eq_refl)) as (n & Hn & Hr).
      destruct (Hrange k' (or_intror Hk')) as (n' & Hn' & Hr').
      unfold pos in Heq. rewrite Hn, Hn' in *. f_equal. lia.
    + apply IH; [|exact Hnd]. intros k' Hk'. apply Hrange. right. exact Hk'.
  - intros i Hi. apply in_map_iff in Hi. destruct Hi as (k & <- & Hk).
    destruct (Hrange k Hk) as (n & Hn & Hr). unfold pos. rewrite Hn. lia.
Qed.

Lemma selected_count_at_most_rows_witness :
  (length (JS.Object_keys (selection_of [0%nat; 2%nat]))
   <= length Sample.three_rows)%nat.
Proof.
  apply (selected_count_at_most_rows (selection_of [0%nat; 2%nat])
           Sample.three_rows).
  - unfold keys_in_range. change (length Sample.three_rows) with 3%nat.
    intros k [<-|[<-|[]]]; [exists 0 | exists 2];
      (split; [reflexivity | lia]).
  - cbn. repeat constructor; cbn; intuition discriminate.
Defined.

(** X9.  The bulk toggle of a single row does what the row's own switch
    does when flipped: with unique identifiers, toggling the selection that
    holds one row calls [updateDatapoint] exactly as the switch handler of
    that row called with the negation of its [isDisabled] flag. *)
Theorem toggle_single_row_is_switch (key : string) (val : bool)
  (fd : list Flat.t) (r : Flat.t) :
  List.NoDup (map Flat.id fd) ->
  JS.array_get fd (JS.parseInt key) = Some r ->
  toggleDisableSelected [(key, val)] fd
  = disable_onCheckedChange r (negb (Flat.isDisabled r)).
Proof.
  intros Hnd Hget.
  assert (Hsel : selects fd (JS.Object_keys [(key, val)]) [r])
    by (repeat constructor; exact Hget).
  rewrite (toggleDisableSelected_run _ _ _ Hnd Hsel).
  cbn [map forallb]. rewrite andb_true_r. reflexivity.
Qed.

Lemma toggle_single_row_is_switch_witness :
  toggleDisableSelected [("2"%string, true)] Sample.three_rows
  = disable_onCheckedChange (Sample.row "C" "CC:DD" true) false.
Proof.
  refine (toggle_single_row_is_switch "2" true Sample.three_rows
            (Sample.row "C" "CC:DD" true) _ eq_refl).
  cbn. repeat constructor; cbn; intuition discriminate.
Defined.

(** * Further properties of the unit conversion *)

(** X10.  Numbers that are not finite pass through the conversion
    unchanged: NaN gives NaN and each infinity gives itself; nothing is
    thrown. *)
Theorem convertToMbps_not_finite (v : JS.number) :
  JS.is_finite v = false -> convertToMbps v = v.
Proof.
  destruct v as [s|[]| |s m e]; cbn [JS.is_finite]; intros H;
    try discriminate; reflexivity.
Qed.

Lemma convertToMbps_not_finite_witness :
  convertToMbps S754_nan = S754_nan.
Proof.
  exact (convertToMbps_not_finite S754_nan eq_refl).
Defined.

Lemma nonneg_below_zero (x : JS.number) :
  nonneg x -> SFleb x (S754_zero false) = true -> exists s, x = S754_zero s.
Proof.
  destruct x as [s|s| |s m e]; cbn [nonneg]; intros Hx Hle.
  - exists s. reflexivity.
  - subst s. discriminate Hle.
  - contradiction.
  - destruct Hx as [-> _]. discriminate Hle.
Qed.

Lemma SFltb_finite (m m' : positive) (e e' : Z) :
  SFltb (S754_finite false m e) (S754_finite false m' e') = true <->
  e < e' \/ (e = e' /\ Zpos m < Zpos m').
Proof.
  unfold SFltb. cbn [SFcompare].
  rewrite Pos.compare_cont_spec. cbn [Pos.switch_Eq].
  destruct (Z.compare_spec e e') as [Heq|Hlt|Hgt].
  - destruct (Pos.compare_spec m m') as [Hm|Hm|Hm]; split; intros H;
      try discriminate; try reflexivity; try lia.
  - split; [lia | reflexivity].
  - split; [discriminate | lia].
Qed.

(** The largest number below 5000. *)
Lemma below_5000 (v : JS.number) :
  finite_nonneg v -> JS_ltb v (JS.of_Z 5000) = true ->
  SFleb v (S754_finite false 5497558138879999 (-40)) = true.
Proof.
  intros Hv Hlt. pose proof (finite_nonneg_nonneg v Hv) as Hdom.
  destruct Hv as (Hvalid & Hfin & _).
  destruct v as [s|s| |s m e]; cbn in Hfin; try discriminate; [reflexivity|].
  cbn [nonneg] in Hdom. destruct Hdom as [-> _].
  change (JS.of_Z 5000) with (S754_finite false 5497558138880000 (-40)) in Hlt.
  unfold JS_ltb in Hlt. apply SFltb_finite in Hlt. apply SFleb_finite. lia.
Qed.

Lemma not_below_5000 (v : JS.number) :
  finite_nonneg v -> JS_ltb v (JS.of_Z 5000) = false ->
  JS.leb (JS.of_Z 5000) v = true.
Proof.
  intros Hv Hlt. pose proof (finite_nonneg_nonneg v Hv) as Hdom.
  destruct Hv as (Hvalid & Hfin & _).
  destruct v as [s|s| |s m e]; cbn in Hfin; try discriminate.
  cbn [nonneg] in Hdom. destruct Hdom as [-> _].
  change (JS.of_Z 5000) with (S754_finite false 5497558138880000 (-40))
    in Hlt |- *.
  unfold JS.leb. apply SFleb_finite.
  destruct (Z.lt_ge_cases e (-40)) as [He|He].
  - exfalso. assert (H : JS_ltb (S754_finite false m e)
                           (S754_finite false 5497558138880000 (-40)) = true)
      by (apply SFltb_finite; lia).
    congruence.
  - destruct (Z.eq_dec e (-40)) as [->|Hne]; [|lia].
    destruct (Z.lt_ge_cases (Zpos m) 5497558138880000) as [Hm|Hm]; [|lia].
    exfalso. assert (H : JS_ltb (S754_finite false m (-40))
                           (S754_finite false 5497558138880000 (-40)) = true)
      by (apply SFltb_finite; lia).
    congruence.
Qed.

Lemma convertToMbps_below_5000 (v : JS.number) :
  finite_nonneg v -> JS_ltb v (JS.of_Z 5000) = true ->
  exists s, convertToMbps v = S754_zero s.
Proof.
  intros Hv Hlt. pose proof (finite_nonneg_nonneg v Hv) as Hdom.
  set (below := S754_finite false 5497558138879999 (-40)).
  assert (Hbelow : nonneg below) by (split; reflexivity).
  destruct (convertToMbps_monotone v below Hdom Hbelow (below_5000 v Hv Hlt))
    as (Hc & _ & Hcle).
  apply nonneg_below_zero; [exact Hc|].
  change (convertToMbps below) with (S754_zero false) in Hcle.
  exact Hcle.
Qed.

(** X11.  The granularity of the display: a finite non-negative rate
    converts to zero exactly when it is below 5000 bit/s; from 5000 bit/s
    on the result is at least 0.01. *)
Theorem convertToMbps_granularity (v : JS.number) :
  finite_nonneg v ->
  (JS_ltb v (JS.of_Z 5000) = true -> exists s, convertToMbps v = S754_zero s)
  /\ (JS.leb (JS.of_Z 5000) v = true ->
      JS.leb (JS.div (JS.of_Z 1) (JS.of_Z 100)) (convertToMbps v) = true).
Proof.
  intros Hv. split.
  - exact (convertToMbps_below_5000 v Hv).
  - intros Hle. pose proof (finite_nonneg_nonneg v Hv) as Hdom.
    assert (H5000 : nonneg (JS.of_Z 5000)) by (split; reflexivity).
    destruct (convertToMbps_monotone (JS.of_Z 5000) v H5000 Hdom Hle)
      as (_ & _ & Hcle).
    exact Hcle.
Qed.

Lemma convertToMbps_granularity_witness :
  (exists s, convertToMbps (JS.of_Z 4999) = S754_zero s)
  /\ JS.leb (JS.div (JS.of_Z 1) (JS.of_Z 100)) (convertToMbps (JS.of_Z 7000))
     = true.
Proof.
  assert (H1 : finite_nonneg (JS.of_Z 4999))
    by (repeat split; vm_compute; reflexivity).
  assert (H2 : finite_nonneg (JS.of_Z 7000))
    by (repeat split; vm_compute; reflexivity).
  split.
  - exact (proj1 (convertToMbps_granularity (JS.of_Z 4999) H1) eq_refl).
  - exact (proj2 (convertToMbps_granularity (JS.of_Z 7000) H2) eq_refl).
Defined.

(** ** Rates with two decimals *)

Lemma SFleb_antisym (x y : JS.number) :
  nonneg x -> nonneg y -> SFabs x = x -> SFabs y = y ->
  SFleb x y = true -> SFleb y x = true -> x = y.
Proof.
  intros Hx Hy Hax Hay Hxy Hyx.
  destruct x as [s|s| |s m e], y as [s'|s'| |s' m' e'];
    cbn [nonneg SFabs] in Hx, Hy, Hax, Hay; try contradiction;
    repeat match goal with
           | H : _ /\ _ |- _ => destruct H as [? _]
           end;
    subst; try discriminate; try congruence.
  apply SFleb_finite in Hxy, Hyx.
  assert (e = e') by lia. assert (Zpos m = Zpos m') by lia. congruence.
Qed.

(** Rounding is a function of the exact value. *)
Lemma rounds_to_unique (q q' : Q) (x x' : JS.number) :
  rounds_to q x -> rounds_to q' x' -> (q == q')%Q -> x = x'.
Proof.
  intros Hx Hx' Heq.
  apply SFleb_antisym.
  - exact (rounds_to_nonneg _ _ Hx).
  - exact (rounds_to_nonneg _ _ Hx').
  - exact (rounds_to_SFabs _ _ Hx).
  - exact (rounds_to_SFabs _ _ Hx').
  - apply (rounds_to_mono q q'); try assumption. lra.
  - apply (rounds_to_mono q' q); try assumption. lra.
Qed.

Lemma pow2_lt_1023 (e : Z) :
  971 < e -> (pow2 1023 < 4503599627370496 * pow2 e)%Q.
Proof.
  intros He. pose proof (pow2_le 972 e ltac:(lia)) as Hle.
  assert (Hc : (pow2 1023 < 4503599627370496 * pow2 972)%Q) by reflexivity.
  lra.
Qed.

(** In the normal range rounding changes a value by at most one part in
    2^53, and does not overflow below 2^1023. *)
Lemma rounds_to_relative_error (q : Q) (x : JS.number) :
  rounds_to q x ->
  (pow2 (-1022) <= q)%Q -> (q <= pow2 1023)%Q ->
  finite_nonneg x
  /\ (q * (1 - (1 # 9007199254740992)) <= B2Q x)%Q
  /\ (B2Q x <= q * (1 + (1 # 9007199254740992)))%Q.
Proof.
  intros (m & e & l & (Hin & Hm & He & Hn) & ->) Hlo Hhi.
  destruct (inbetween_bounds _ _ _ _ Hin) as [Hq1 Hq2].
  pose proof (pow2_pos e) as HP.
  pose proof (F2Q_add m 1 e) as Hs. rewrite F2Q_one in Hs.
  assert (Hnorm : 2 ^ 52 <= m).
  { destruct (Z.eq_dec e (-1074)) as [->|Hne]; [|apply Hn; lia].
    assert (Hlt : (F2Q (2 ^ 52) (-1074) < F2Q (m + 1) (-1074))%Q).
    { rewrite (F2Q_pow2 52 (-1074)) by lia. change (52 + -1074) with (-1022).
      lra. }
    apply F2Q_lt_inv in Hlt. lia. }
  assert (Hbig : (4503599627370496 * pow2 e <= F2Q m e)%Q).
  { apply (F2Q_le _ _ e) in Hnorm. unfold F2Q in Hnorm at 1.
    change (inject_Z (2 ^ 52)) with 4503599627370496%Q in Hnorm. exact Hnorm. }
  assert (He971 : e <= 971).
  { destruct (Z.le_gt_cases e 971) as [H|H]; [exact H|]. exfalso.
    pose proof (pow2_lt_1023 e H). lra. }
  set (r := round_nearest_even m l).
  pose proof (round_nearest_even_range m l) as Hr. fold r in Hr.
  assert (Herr : (F2Q r e - q <= pow2 e * (1 # 2)
                  /\ q - F2Q r e <= pow2 e * (1 # 2))%Q).
  { unfold r. destruct l as [|[]]; cbn [round_nearest_even];
      unfold inbetween in Hin; try destruct (Z.even m); lra. }
  assert (Hfin : r <> 2 ^ 53 \/ e < 971).
  { destruct (Z.eq_dec r (2 ^ 53)) as [Hr53|Hr53]; [right|left; exact Hr53].
    destruct (Z.eq_dec e 971) as [->|Hne]; [exfalso|lia].
    assert (Hm53 : 2 ^ 53 - 1 <= m) by lia.
    apply (F2Q_le _ _ 971) in Hm53.
    assert (Hc : (pow2 1023 < F2Q (2 ^ 53 - 1) 971)%Q) by reflexivity.
    lra. }
  assert (Hval : finite_nonneg (finish r e)
                 /\ (B2Q (finish r e) == F2Q r e)%Q).
  { rewrite finish_cases by lia.
    destruct (Z.eqb_spec r 0) as [Hr0|Hr0]; [lia|].
    destruct (Z.eqb_spec r (2 ^ 53)) as [Hr53|Hr53].
    - destruct (Z.leb_spec (e + 1) 971); [|lia]. split.
      + repeat split. apply bounded_iff. lia.
      + cbn [B2Q cond_Zopp]. rewrite Hr53.
        change (Zpos (2 ^ 52)) with (2 ^ 52).
        rewrite (F2Q_pow2 52 (e + 1)), (F2Q_pow2 53 e) by lia.
        replace (52 + (e + 1)) with (53 + e) by lia. reflexivity.
    - destruct (Z.leb_spec e 971); [|lia]. split.
      + repeat split. apply bounded_iff. rewrite Z2Pos.id by lia. lia.
      + cbn [B2Q cond_Zopp]. rewrite Z2Pos.id by lia. reflexivity. }
  destruct Hval as [Hfinite Hval]. split; [exact Hfinite|].
  rewrite Hval. lra.
Qed.

(** A positive integer below 2^53 is a number: the literal denotes it
    exactly. *)
Lemma of_Z_exact (k : Z) :
  0 < k < 2 ^ 53 ->
  exists m e,
    JS.of_Z k = S754_finite false m e
    /\ bounded JS.prec JS.emax m e = true
    /\ (F2Q (Zpos m) e == inject_Z k)%Q.
Proof.
  intros Hk. destruct k as [|p|p]; try lia.
  exact (binary_round_integer p ltac:(lia)).
Qed.

Lemma finite_nonneg_positive (x : JS.number) :
  finite_nonneg x -> (0 < B2Q x)%Q ->
  exists m e, x = S754_finite false m e /\ bounded JS.prec JS.emax m e = true.
Proof.
  intros Hx Hpos. destruct (finite_nonneg_cases x Hx) as [[s ->]|H];
    [|exact H].
  cbn in Hpos. exfalso. lra.
Qed.

(** X12.  Rates with two decimals survive the conversion: for a whole
    number [k] of hundredths of a Mbit/s, the rate [k * 10000] bit/s
    converts to the number [k / 100]. *)
Theorem convertToMbps_two_decimals (k : Z) :
  0 <= k -> k * 10000 < 2 ^ 53 ->
  convertToMbps (JS.of_Z (k * 10000)) = JS.div (JS.of_Z k) (JS.of_Z 100).
Proof.
  intros Hk0 Hk. destruct (Z.eq_dec k 0) as [->|Hne]; [reflexivity|].
  assert (Hk1 : 1 <= k) by lia.
  set (K := inject_Z k).
  assert (HK1 : (1 <= K)%Q).
  { change 1%Q with (inject_Z 1). unfold K. rewrite <- Zle_Qle. exact Hk1. }
  assert (HK2 : (K * 10000 < 9007199254740992)%Q).
  { change 10000%Q with (inject_Z 10000).
    change 9007199254740992%Q with (inject_Z (2 ^ 53)).
    unfold K. rewrite <- inject_Z_mult, <- Zlt_Qlt. exact Hk. }
  destruct (of_Z_exact (k * 10000) ltac:(lia)) as (mv & ev & Hv & Hbv & Hqv).
  destruct (of_Z_exact k ltac:(lia)) as (mk & ek & Hkk & Hbk & Hqk).
  rewrite inject_Z_mult in Hqv. change (inject_Z 10000) with 10000%Q in Hqv.
  fold K in Hqv, Hqk.
  unfold convertToMbps. rewrite Hv, Hkk.
  change (JS.of_Z 1000000) with (S754_finite false 8589934592000000 (-33)).
  change (JS.of_Z 100) with (S754_finite false 7036874417766400 (-46)).
  pose proof F2Q_1000000 as Hc1. pose proof F2Q_100 as Hc2.
  (* the number k / 100 *)
  pose proof (div_rounds_to mk 7036874417766400 ek (-46)) as Ht.
  apply (rounds_to_compat _ (K * (1 # 100))) in Ht;
    [|rewrite Hqk, Hc2; field].
  (* v / 1000000 *)
  pose proof (div_rounds_to mv 8589934592000000 ev (-33)) as Ha.
  apply (rounds_to_compat _ (K * (1 # 100))) in Ha;
    [|rewrite Hqv, Hc1; field].
  set (a := JS.div (S754_finite false mv ev)
              (S754_finite false 8589934592000000 (-33))) in *.
  assert (Hlow : (pow2 (-1022) <= 1 # 200)%Q) by (vm_compute; discriminate).
  assert (Hhigh : (18014398509481984 <= pow2 1023)%Q)
    by (vm_compute; discriminate).
  destruct (rounds_to_relative_error _ _ Ha ltac:(lra) ltac:(lra))
    as (Hafin & Ha1 & Ha2).
  destruct (finite_nonneg_positive a Hafin ltac:(lra))
    as (ma & ea & Haeq & Hba).
  rewrite Haeq in *. cbn [B2Q cond_Zopp] in Ha1, Ha2.
  (* ... * 100 *)
  pose proof (mul_rounds_to ma 7036874417766400 ea (-46) Hba eq_refl) as Hb.
  set (b := JS.mul (S754_finite false ma ea)
              (S754_finite false 7036874417766400 (-46))) in *.
  apply (rounds_to_compat _ (F2Q (Zpos ma) ea * 100)) in Hb;
    [|rewrite Hc2; reflexivity].
  destruct (rounds_to_relative_error _ _ Hb ltac:(lra) ltac:(lra))
    as (Hbfin & Hb1 & Hb2).
  clear Hlow Hhigh.
  (* Math.round *)
  destruct (Math_round_exact_nonneg b Hbfin) as (r & (Hr1 & Hr2) & Hc & Hcfin).
  assert (Hrk : r = k).
  { assert (H1 : (inject_Z r < inject_Z (k + 1))%Q).
    { rewrite inject_Z_plus. fold K. change (inject_Z 1) with 1%Q.
      clear - HK1 HK2 Ha2 Hb2 Hr1. clearbody K b. lra. }
    assert (H2 : (inject_Z (k - 1) < inject_Z r)%Q).
    { unfold Z.sub. rewrite inject_Z_plus, inject_Z_opp. fold K.
      change (inject_Z 1) with 1%Q.
      clear - HK1 HK2 Ha1 Hb1 Hr2. clearbody K b. lra. }
    rewrite <- Zlt_Qlt in H1, H2. lia. }
  subst r. fold K in Hc.
  set (c := JS.Math_round b) in *.
  destruct (finite_nonneg_positive c Hcfin ltac:(lra))
    as (mc & ec & Hceq & Hbc).
  rewrite Hceq in *. cbn [B2Q cond_Zopp] in Hc.
  (* ... / 100 *)
  pose proof (div_rounds_to mc 7036874417766400 ec (-46)) as Hd.
  apply (rounds_to_compat _ (K * (1 # 100))) in Hd;
    [|rewrite Hc, Hc2; field].
  exact (rounds_to_unique _ _ _ _ Hd Ht ltac:(reflexivity)).
Qed.

Lemma convertToMbps_two_decimals_witness :
  convertToMbps (JS.of_Z 94300000) = JS.div (JS.of_Z 9430) (JS.of_Z 100).
Proof.
  exact (convertToMbps_two_decimals 9430 ltac:(lia) ltac:(lia)).
Defined.

(** ** Accuracy *)

Lemma B2Q_below_overflow (m : positive) (e : Z) :
  bounded JS.prec JS.emax m e = true -> (F2Q (Zpos m) e <= pow2 1024)%Q.
Proof.
  intros Hb. apply bounded_iff in Hb. destruct Hb as (Hm & He & _).
  assert (H1 : Zpos m <= 2 ^ 53) by lia.
  apply (F2Q_le _ _ e) in H1. rewrite (F2Q_pow2 53 e) in H1 by lia.
  pose proof (pow2_le (53 + e) 1024 ltac:(lia)). lra.
Qed.

Lemma convertToMbps_accuracy_from_5000 (v : JS.number) :
  finite_nonneg v ->
  JS.leb (JS.of_Z 5000) v = true ->
  let q := (B2Q v / 1000000)%Q in
  let d := B2Q (convertToMbps v) in
  (q - (5 # 1000) - (q + 1) * (1 # 2251799813685248) <= d)%Q
  /\ (d <= q + (5 # 1000) + (q + 1) * (1 # 2251799813685248))%Q.
Proof.
  intros Hv Hone.
  destruct (finite_nonneg_cases v Hv) as [[s ->]|(m & e & -> & Hbv)];
    [discriminate Hone|].
  cbv zeta. cbn [B2Q cond_Zopp]. unfold convertToMbps.
  change (JS.of_Z 1000000) with (S754_finite false 8589934592000000 (-33)).
  change (JS.of_Z 100) with (S754_finite false 7036874417766400 (-46)).
  pose proof F2Q_1000000 as Hc1. pose proof F2Q_100 as Hc2.
  set (V := F2Q (Zpos m) e).
  assert (Hq : (V / 1000000 == V * (1 # 1000000))%Q) by field.
  set (q := (V / 1000000)%Q) in *.
  assert (HV1 : (1 <= V)%Q).
  { change (JS.of_Z 5000) with (S754_finite false 5497558138880000 (-40))
      in Hone.
    apply SFleb_B2Q in Hone; [|reflexivity|exact Hbv].
    assert (H1 : (F2Q 5497558138880000 (-40) == 5000)%Q) by reflexivity.
    unfold V. lra. }
  assert (HV2 : (V <= pow2 1024)%Q) by exact (B2Q_below_overflow m e Hbv).
  assert (Hp1024 : (pow2 1024 == 2 * pow2 1023)%Q) by reflexivity.
  assert (Hlow : (pow2 (-1022) <= 1 # 2000000)%Q) by (vm_compute; discriminate).
  assert (Hp0 : (1 <= pow2 1023)%Q) by (vm_compute; discriminate).
  (* v / 1000000 *)
  pose proof (div_rounds_to m 8589934592000000 e (-33)) as Ha.
  fold V in Ha.
  apply (rounds_to_compat _ (V * (1 # 1000000))) in Ha;
    [|rewrite Hc1; field].
  set (a := JS.div (S754_finite false m e)
              (S754_finite false 8589934592000000 (-33))) in *.
  destruct (rounds_to_relative_error _ _ Ha ltac:(lra) ltac:(lra))
    as (Hafin & Ha1 & Ha2).
  destruct (finite_nonneg_positive a Hafin ltac:(lra))
    as (ma & ea & Haeq & Hba).
  rewrite Haeq in *. cbn [B2Q cond_Zopp] in Ha1, Ha2.
  set (A := F2Q (Zpos ma) ea) in *.
  (* ... * 100 *)
  pose proof (mul_rounds_to ma 7036874417766400 ea (-46) Hba eq_refl) as Hb.
  fold A in Hb.
  apply (rounds_to_compat _ (A * 100)) in Hb; [|rewrite Hc2; reflexivity].
  set (b := JS.mul (S754_finite false ma ea)
              (S754_finite false 7036874417766400 (-46))) in *.
  destruct (rounds_to_relative_error _ _ Hb ltac:(lra) ltac:(lra))
    as (Hbfin & Hb1 & Hb2).
  (* Math.round *)
  destruct (Math_round_exact_nonneg b Hbfin) as (r & (Hr1 & Hr2) & Hc & Hcfin).
  set (c := JS.Math_round b) in *.
  set (R := inject_Z r) in *.
  destruct (finite_nonneg_cases c Hcfin) as [[s Hcz]|(mc & ec & Hceq & Hbc)].
  - (* the rounded value is zero *)
    rewrite Hcz in *. cbn [B2Q] in Hc. cbn [JS.div SFdiv B2Q].
    clear - Hq HV1 Ha1 Ha2 Hb1 Hb2 Hr1 Hr2 Hc. clearbody q V A b R.
    split; lra.
  - rewrite Hceq in *. cbn [B2Q cond_Zopp] in Hc.
    set (C := F2Q (Zpos mc) ec) in *.
    assert (Hr0 : (1 <= R)%Q).
    { assert (H0 : 0 < r).
      { rewrite Zlt_Qlt. fold R. pose proof (F2Q_pos mc ec). fold C in H.
        change (inject_Z 0) with 0%Q. lra. }
      change 1%Q with (inject_Z 1). unfold R. rewrite <- Zle_Qle. lia. }
    pose proof (div_rounds_to mc 7036874417766400 ec (-46)) as Hd.
    fold C in Hd.
    apply (rounds_to_compat _ (R * (1 # 100))) in Hd;
      [|rewrite Hc, Hc2; field].
    set (d := JS.div (S754_finite false mc ec)
                (S754_finite false 7036874417766400 (-46))) in *.
    destruct (rounds_to_relative_error _ _ Hd ltac:(lra) ltac:(lra))
      as (Hdfin & Hd1 & Hd2).
    clear - Hq HV1 Ha1 Ha2 Hb1 Hb2 Hr1 Hr2 Hr0 Hd1 Hd2.
    clearbody q V A b R d. split; lra.
Qed.

(** X13.  The converted value is the exact Mbit/s value rounded to two
    decimals, up to the rounding of binary64: for every finite non-negative
    rate the result differs from the exact quotient [q = v / 1000000] by at
    most 0.005 plus [(q + 1) / 2^51]. *)
Theorem convertToMbps_accuracy (v : JS.number) :
  finite_nonneg v ->
  let q := (B2Q v / 1000000)%Q in
  let d := B2Q (convertToMbps v) in
  (q - (5 # 1000) - (q + 1) * (1 # 2251799813685248) <= d)%Q
  /\ (d <= q + (5 # 1000) + (q + 1) * (1 # 2251799813685248))%Q.
Proof.
  intros Hv. destruct (JS_ltb v (JS.of_Z 5000)) eqn:Hlt.
  - destruct (convertToMbps_below_5000 v Hv Hlt) as [s ->].
    pose proof (below_5000 v Hv Hlt) as Hle.
    cbv zeta. cbn [B2Q].
    assert (Hq : (0 <= B2Q v /\ B2Q v < 5000)%Q).
    { destruct (finite_nonneg_cases v Hv) as [[s' ->]|(m & e & -> & Hb)].
      - cbn [B2Q]. lra.
      - cbn [B2Q cond_Zopp]. pose proof (F2Q_pos m e).
        apply SFleb_B2Q in Hle; [|exact Hb|reflexivity].
        assert (Hc : (F2Q 5497558138879999 (-40) < 5000)%Q) by reflexivity.
        lra. }
    assert (Hdiv : (B2Q v / 1000000 == B2Q v * (1 # 1000000))%Q) by field.
    set (q := (B2Q v / 1000000)%Q) in *. clearbody q. split; lra.
  - exact (convertToMbps_accuracy_from_5000 v Hv (not_below_5000 v Hv Hlt)).
Qed.

Lemma convertToMbps_accuracy_witness :
  (B2Q (JS.of_Z 1005000) / 1000000 - (5 # 1000)
   - (B2Q (JS.of_Z 1005000) / 1000000 + 1) * (1 # 2251799813685248)
   <= B2Q (convertToMbps (JS.of_Z 1005000)))%Q.
Proof.
  refine (proj1 (convertToMbps_accuracy (JS.of_Z 1005000) _)).
  repeat split; vm_compute; reflexivity.
Defined.

(** ** Throughput cells and the mapping *)

Lemma array_get_same_record (fd fd' : list Flat.t) (i : option Z) :
  Forall2 same_record fd fd' ->
  match JS.array_get fd i, JS.array_get fd' i with
  | Some r, Some r' => same_record r r'
  | None, None => True
  | _, _ => False
  end.
Proof.
  intros Hsame. unfold JS.array_get. destruct i as [z|]; [|exact I].
  destruct (z <? 0); [exact I|]. generalize (Z.to_nat z). clear z.
  induction Hsame as [|r r' fd fd' Hr _ IH]; intros [|n]; cbn [nth_error];
    try exact I; [exact Hr | apply IH].
Qed.

Lemma mapM_row_id_at_same_record (fd fd' : list Flat.t) (keys : list string) :
  Forall2 same_record fd fd' ->
  mapM (row_id_at fd) keys = mapM (row_id_at fd') keys.
Proof.
  intros Hsame. induction keys as [|k keys IH]; [reflexivity|].
  cbn [mapM]. rewrite IH. f_equal. unfold row_id_at.
  pose proof (array_get_same_record fd fd' (JS.parseInt k) Hsame) as Hk.
  destruct (JS.array_get fd (JS.parseInt k)),
           (JS.array_get fd' (JS.parseInt k)); try contradiction;
    [|reflexivity].
  destruct Hk as [-> _]. reflexivity.
Qed.

Lemma isDisabled_of_id_same_record (fd fd' : list Flat.t) (id : string) :
  Forall2 same_record fd fd' ->
  isDisabled_of_id fd id = isDisabled_of_id fd' id.
Proof.
  unfold isDisabled_of_id.
  induction 1 as [|r r' fd fd' [Hid Hdis] _ IH]; [reflexivity|].
  cbn [find]. rewrite Hid. destruct (String.eqb (Flat.id r') id);
    [exact Hdis | exact IH].
Qed.

Lemma handlers_same_record (sel : RowSelection) (fd fd' : list Flat.t) :
  Forall2 same_record fd fd' ->
  handleDelete sel fd = handleDelete sel fd'
  /\ toggleDisableSelected sel fd = toggleDisableSelected sel fd'.
Proof.
  intros Hsame. unfold handleDelete, toggleDisableSelected.
  rewrite (mapM_row_id_at_same_record fd fd' _ Hsame). split; [reflexivity|].
  destruct (mapM (row_id_at fd') (JS.Object_keys sel)) as [tr [ids|err]];
    cbn [bind]; [|reflexivity].
  replace (forallb (isDisabled_of_id fd) ids)
    with (forallb (isDisabled_of_id fd') ids); [reflexivity|].
  induction ids as [|id ids IH]; [reflexivity|]. cbn [forallb].
  rewrite IH, (isDisabled_of_id_same_record fd fd' id Hsame). reflexivity.
Qed.

(** Finite non-negative numbers are totally ordered: [a < b] or
    [b <= a], and never both. *)
Lemma ltb_or_leb (a b : JS.number) :
  finite_nonneg a -> finite_nonneg b ->
  JS_ltb a b = true \/ JS.leb b a = true.
Proof.
  intros Ha Hb.
  destruct (finite_nonneg_cases a Ha) as [[s ->]|(m & e & -> & _)],
           (finite_nonneg_cases b Hb) as [[s' ->]|(m' & e' & -> & _)];
    try (right; reflexivity); try (left; reflexivity).
  unfold JS_ltb, JS.leb.
  destruct (Z.lt_trichotomy e e') as [He|[He|He]].
  - left. apply SFltb_finite. lia.
  - destruct (Z.lt_ge_cases (Zpos m) (Zpos m')) as [Hm|Hm].
    + left. apply SFltb_finite. lia.
    + right. apply SFleb_finite. lia.
  - right. apply SFleb_finite. lia.
Qed.

Lemma ltb_not_leb (a b : JS.number) :
  finite_nonneg a -> finite_nonneg b ->
  JS_ltb a b = true -> JS.leb b a = true -> False.
Proof.
  intros Ha Hb.
  destruct (finite_nonneg_cases a Ha) as [[s ->]|(m & e & -> & _)],
           (finite_nonneg_cases b Hb) as [[s' ->]|(m' & e' & -> & _)];
    try discriminate.
  unfold JS_ltb, JS.leb. intros Hlt Hle.
  apply SFltb_finite in Hlt. apply SFleb_finite in Hle. lia.
Qed.

(** The conversion keeps the order of the rates and never reverses it. *)
Lemma convertToMbps_order (v1 v2 : JS.number) :
  finite_nonneg v1 -> finite_nonneg v2 ->
  (JS.leb v1 v2 = true ->
   JS.leb (convertToMbps v1) (convertToMbps v2) = true)
  /\ (JS_ltb (convertToMbps v1) (convertToMbps v2) = true ->
      JS_ltb v1 v2 = true).
Proof.
  intros H1 H2.
  assert (Hmono : forall a b, finite_nonneg a -> finite_nonneg b ->
                    JS.leb a b = true ->
                    JS.leb (convertToMbps a) (convertToMbps b) = true).
  { intros a b Ha Hb Hle.
    exact (proj2 (proj2 (convertToMbps_monotone a b
                           (finite_nonneg_nonneg a Ha)
                           (finite_nonneg_nonneg b Hb) Hle))). }
  split; [apply Hmono; assumption|].
  intros Hlt. destruct (ltb_or_leb v1 v2 H1 H2) as [Hv|Hv]; [exact Hv|].
  exfalso.
  exact (ltb_not_leb _ _ (convertToMbps_finite_nonneg v1 H1)
           (convertToMbps_finite_nonneg v2 H2) Hlt (Hmono v2 v1 H2 H1 Hv)).
Qed.

Section FlattenedCells.

Variable rssiToPercentage : JS.number -> JS.number.
Variable Number_toString : JS.number -> string.
Variable toLocaleString : string -> string.

Let rows := flattenedData rssiToPercentage Number_toString toLocaleString.
Let row := flatten_point rssiToPercentage Number_toString toLocaleString.

(** X14.  The throughput cells of a row built from finite non-negative
    rates are finite non-negative numbers, and the cells never reverse the
    order of the rates: between two such rows, under any mappings, a rate
    that is lower or equal gives a cell that is lower or equal, and a cell
    that is strictly lower comes from a rate that is strictly lower. *)
Theorem throughput_cells_ordered (p1 p2 : SurveyPoint.t)
  (m1 m2 : list ApMapping.t) :
  measured (SurveyPoint.iperfResults p1) ->
  measured (SurveyPoint.iperfResults p2) ->
  let r1 := SurveyPoint.iperfResults p1 in
  let r2 := SurveyPoint.iperfResults p2 in
  let rate (f : IperfResults.t -> IperfResults.test) (r : IperfResults.t) :=
    IperfResults.bitsPerSecond (f r) in
  let ordered (f : IperfResults.t -> IperfResults.test)
        (cell : Flat.t -> JS.number) :=
    (JS.leb (rate f r1) (rate f r2) = true ->
     JS.leb (cell (row m1 p1)) (cell (row m2 p2)) = true)
    /\ (JS_ltb (cell (row m1 p1)) (cell (row m2 p2)) = true ->
        JS_ltb (rate f r1) (rate f r2) = true) in
  (finite_nonneg (Flat.tcpDownloadMbps (row m1 p1))
   /\ finite_nonneg (Flat.tcpUploadMbps (row m1 p1))
   /\ finite_nonneg (Flat.udpDownloadMbps (row m1 p1))
   /\ finite_nonneg (Flat.udpUploadMbps (row m1 p1)))
  /\ ordered IperfResults.tcpDownload Flat.tcpDownloadMbps
  /\ ordered IperfResults.tcpUpload Flat.tcpUploadMbps
  /\ ordered IperfResults.udpDownload Flat.udpDownloadMbps
  /\ ordered IperfResults.udpUpload Flat.udpUploadMbps.
Proof.
  intros (Ha1 & Hb1 & Hc1 & Hd1) (Ha2 & Hb2 & Hc2 & Hd2) r1 r2 rate ordered.
  unfold ordered, rate, row.
  cbn [flatten_point Flat.tcpDownloadMbps Flat.tcpUploadMbps
         Flat.udpDownloadMbps Flat.udpUploadMbps].
  split; [|split; [|split; [|split]]].
  - repeat split; apply convertToMbps_finite_nonneg; assumption.
  - apply convertToMbps_order; assumption.
  - apply convertToMbps_order; assumption.
  - apply convertToMbps_order; assumption.
  - apply convertToMbps_order; assumption.
Qed.

Lemma rows_same_record (data : list SurveyPoint.t)
  (m1 m2 : list ApMapping.t) :
  Forall2 same_record (rows data m1) (rows data m2).
Proof.
  unfold rows, flattenedData.
  induction data as [|p data IH]; cbn [map]; constructor; [|exact IH].
  split; reflexivity.
Qed.

(** X15.  The bulk actions do not depend on the mapping list: they read
    only the identifier and the [isDisabled] flag of the rows, so for
    every selection, valid or not, both handlers do the same on the tables
    built from the same records under any two mappings. *)
Theorem bulk_actions_ignore_mapping (sel : RowSelection)
  (data : list SurveyPoint.t) (m1 m2 : list ApMapping.t) :
  handleDelete sel (rows data m1) = handleDelete sel (rows data m2)
  /\ toggleDisableSelected sel (rows data m1)
     = toggleDisableSelected sel (rows data m2).
Proof.
  apply handlers_same_record, rows_same_record.
Qed.

End FlattenedCells.

Lemma throughput_cells_ordered_witness :
  let slow :=
    SurveyPoint.mk "A" (JS.of_Z 10) (JS.of_Z 20) (Sample.wifi "AA:BB")
      (IperfResults.mk
         (IperfResults.mkTest (JS.of_Z 94300000))
         (IperfResults.mkTest (JS.of_Z 1005000))
         (IperfResults.mkTest (JS.of_Z 0))
         (IperfResults.mkTest (JS.of_Z 5000)))
      "2024-07-01T10:00:00.000Z" false in
  let fast :=
    SurveyPoint.mk "B" (JS.of_Z 30) (JS.of_Z 40) (Sample.wifi "AA:BB")
      (IperfResults.mk
         (IperfResults.mkTest (JS.of_Z 941000000))
         (IperfResults.mkTest (JS.of_Z 9430000))
         (IperfResults.mkTest (JS.of_Z 4999))
         (IperfResults.mkTest (JS.of_Z 880000)))
      "2024-07-01T10:05:00.000Z" true in
  JS.leb
    (Flat.tcpUploadMbps
       (flatten_point Sample.rssiToPercentage Sample.Number_toString
          Sample.toLocaleString [] slow))
    (Flat.tcpUploadMbps
       (flatten_point Sample.rssiToPercentage Sample.Number_toString
          Sample.toLocaleString [ApMapping.mk "AA:BB" "Router1"] fast))
  = true
  /\ JS_ltb
       (IperfResults.bitsPerSecond
          (IperfResults.udpUpload (SurveyPoint.iperfResults slow)))
       (IperfResults.bitsPerSecond
          (IperfResults.udpUpload (SurveyPoint.iperfResults fast)))
     = true.
Proof.
  intros slow fast.
  assert (Hslow : measured (SurveyPoint.iperfResults slow))
    by (repeat split; vm_compute; reflexivity).
  assert (Hfast : measured (SurveyPoint.iperfResults fast))
    by (repeat split; vm_compute; reflexivity).
  pose proof (throughput_cells_ordered Sample.rssiToPercentage
                Sample.Number_toString Sample.toLocaleString slow fast
                [] [ApMapping.mk "AA:BB" "Router1"] Hslow Hfast) as H.
  cbv zeta in H. destruct H as (_ & _ & Hup & _ & Hudp). split.
  - apply (proj1 Hup). vm_compute. reflexivity.
  - apply (proj2 Hudp). vm_compute. reflexivity.
Defined.
